(** * pummeler: the command-line driver ([pummeler/cli.py]) and the pipeline
  it wires together.

  The driver is embedded from its source.  The modules it imports
  ([sort], [stats], [featurize], [reader]) are modelled from the
  specification where a property depends on them; every such definition
  says so in its doc comment. *)

From Stdlib Require Import Reals Lra ZArith String Ascii List Bool Lia Permutation.
From stdpp Require Import gmap strings list fin_maps.
Import ListNotations.

Open Scope string_scope.

(** ** Exceptions *)

(** The exceptions of the driver and of the calls it makes.  [Unmodelled] is
    not an exception of Python: it marks an input on which this development
    does not describe what a library call does. *)
Inductive pyerr :=
| ValueError | KeyError | IndexError | TypeError | ArgumentError | IOError
| EmptyFeatureError | UnknownCategoryError | Unmodelled.

Inductive res (A : Type) :=
| Ok (a : A)
| Raise (e : pyerr).
Arguments Ok {A} a.
Arguments Raise {A} e.

#[global] Instance res_ret : MRet res := @Ok.
#[global] Instance res_bind : MBind res :=
  fun A B f m => match m with Ok a => f a | Raise e => Raise e end.

Definition res_map {A B} (f : A -> B) (m : res A) : res B :=
  match m with Ok a => Ok (f a) | Raise e => Raise e end.

(** ** Python strings and POSIX paths *)

Module PyStr.

(** [s.startswith(p)] *)
Fixpoint startswith (s p : string) {struct p} : bool :=
  match p with
  | EmptyString => true
  | String c p' =>
      match s with
      | EmptyString => false
      | String d s' => Ascii.eqb c d && startswith s' p'
      end
  end.

(** [s.endswith(p)] *)
Definition endswith (s p : string) : bool :=
  let n := String.length s in
  let m := String.length p in
  (m <=? n)%nat && String.eqb (substring (n - m) m s) p.

(** Normalisation of one bound of a slice over a sequence of length [len]:
    negative bounds count from the end, and both are clamped. *)
Definition slice_bound (len i : Z) : Z :=
  if (i <? 0)%Z then Z.max 0 (len + i) else Z.min i len.

(** [s[lo:hi]] *)
Definition slice (s : string) (lo hi : Z) : string :=
  let len := Z.of_nat (String.length s) in
  let a := slice_bound len lo in
  let b := slice_bound len hi in
  substring (Z.to_nat a) (Z.to_nat (b - a)) s.

(** ['/' in s] *)
Fixpoint has_sep (s : string) : bool :=
  match s with
  | EmptyString => false
  | String c s' => Ascii.eqb c "/" || has_sep s'
  end.

(** [os.path.basename(p)]: what follows the last ['/']. *)
Fixpoint basename (p : string) : string :=
  match p with
  | EmptyString => EmptyString
  | String c p' =>
      if has_sep p' then basename p'
      else if Ascii.eqb c "/" then p' else p
  end.

(** [os.path.join(a, b)] *)
Definition path_join (a b : string) : string :=
  if startswith b "/" then b
  else if String.eqb a "" || endswith a "/" then a +:+ b
  else a +:+ "/" +:+ b.

(** [s.rstrip('/')] *)
Fixpoint rstrip_sep (s : string) : string :=
  match s with
  | EmptyString => EmptyString
  | String c s' =>
      match rstrip_sep s' with
      | EmptyString => if Ascii.eqb c "/" then EmptyString else String c EmptyString
      | t => String c t
      end
  end.

(** ['{' in s or '}' in s] *)
Fixpoint has_brace (s : string) : bool :=
  match s with
  | EmptyString => false
  | String c s' => Ascii.eqb c "{" || Ascii.eqb c "}" || has_brace s'
  end.

(** ['*' in s or '?' in s or '[' in s]: the characters [glob] expands
    ([glob.has_magic]). *)
Fixpoint has_magic (s : string) : bool :=
  match s with
  | EmptyString => false
  | String c s' =>
      Ascii.eqb c "*" || Ascii.eqb c "?" || Ascii.eqb c "[" || has_magic s'
  end.

(** The characters of an identifier (ASCII). *)
Definition ascii_between (lo hi c : ascii) : bool :=
  (nat_of_ascii lo <=? nat_of_ascii c)%nat && (nat_of_ascii c <=? nat_of_ascii hi)%nat.

Definition is_ident_start (c : ascii) : bool :=
  ascii_between "a" "z" c || ascii_between "A" "Z" c || Ascii.eqb c "_".

Definition is_ident_char (c : ascii) : bool :=
  is_ident_start c || ascii_between "0" "9" c.

(** Whether [s] goes on as an identifier up to a closing brace. *)
Fixpoint closes_ident (s : string) : bool :=
  match s with
  | EmptyString => false
  | String c s' =>
      if Ascii.eqb c "}" then true
      else if is_ident_char c then closes_ident s' else false
  end.

(** [pat.format(arg)] with the one positional argument [arg], a string; the
    pattern is read from left to right and the first error ends the call.
    Text is copied; ["{{"] and ["}}"] stand for one brace; a ["}"] on its own,
    and a ["{"] that ends the pattern, raise [ValueError]; the first ["{}"] is
    replaced by [arg], and a second one raises [IndexError], there being one
    argument; a field named by an identifier raises [KeyError], there being
    no keyword argument.  What any other replacement field does (a number, a
    conversion, a format specification, an attribute or an index) is not
    described here: [Unmodelled].  [used] tells whether a ["{}"] has consumed
    the argument. *)
Fixpoint format_go (pat arg : string) (used : bool) : res string :=
  match pat with
  | EmptyString => Ok EmptyString
  | String c rest =>
      if Ascii.eqb c "{" then
        match rest with
        | EmptyString => Raise ValueError
        | String d rest' =>
            if Ascii.eqb d "{" then res_map (String "{") (format_go rest' arg used)
            else if Ascii.eqb d "}" then
              if used then Raise IndexError
              else res_map (String.append arg) (format_go rest' arg true)
            else if is_ident_start d && closes_ident rest' then Raise KeyError
            else Raise Unmodelled
        end
      else if Ascii.eqb c "}" then
        match rest with
        | EmptyString => Raise ValueError
        | String d rest' =>
            if Ascii.eqb d "}" then res_map (String "}") (format_go rest' arg used)
            else Raise ValueError
        end
      else res_map (String c) (format_go rest arg used)
  end.

Definition format1 (pat arg : string) : res string := format_go pat arg false.

End PyStr.

(** ** Region store file names ([do_sort], [do_featurize], [do_weight_counts]) *)

Module RegionFiles.
Import PyStr.

(** [do_sort]: [os.path.join(args.out_dir, 'feats_{}.h5')], the pattern
    handed to [sort_by_region]. *)
Definition store_pattern (out_dir : string) : string :=
  path_join out_dir "feats_{}.h5".

(** The name of region [r]'s store: the pattern ['feats_{}.h5'] filled
    with [r]. *)
Definition store_file_name (r : string) : string :=
  "feats_" +:+ r +:+ ".h5".

(** [fnmatch(name, 'feats_*.h5')], the test [glob] applies to the entries
    of [args.dir] in [do_featurize]. *)
Definition glob_feats (name : string) : bool :=
  startswith name "feats_"
  && endswith name ".h5"
  && (String.length "feats_" + String.length ".h5" <=? String.length name)%nat.

(** [do_featurize]: [os.path.basename(f)[6:-3]] *)
Definition featurize_region_name (f : string) : string :=
  slice (basename f) 6 (-3).

(** [do_weight_counts]: the guard on a directory entry and the region it
    is filed under. *)
Definition weight_counts_region (fn : string) : option string :=
  if startswith fn "feats_" && endswith fn ".h5"
  then Some (slice fn (Z.of_nat (String.length "feats_"))
                      (- Z.of_nat (String.length ".h5")))
  else None.

End RegionFiles.

(** ** numpy arrays, [.npz] archives, pandas frames and CSV tables *)

Module Np.

(** The arrays the driver handles.  A 2-d array carries its column count,
    so that an array with no rows still has a shape. *)
Inductive ndarray :=
| Scalar (x : R)
| Arr1 (v : list R)
| Arr2 (ncols : nat) (rows : list (list R))
| Arr3 (t : list (list (list R)))
| StrArr (l : list string)
| Str0 (s : string)
| ObjNone.

(** Every row of a 2-d array has [ncols] entries. *)
Definition rect (a : ndarray) : Prop :=
  match a with
  | Arr2 n rows => Forall (fun row => length row = n) rows
  | _ => True
  end.

(** The members of an [.npz] archive, by name. *)
Abbreviation npz := (gmap string ndarray).

(** [data[key]] on a loaded archive *)
Definition getitem (data : npz) (key : string) : res ndarray :=
  match data !! key with
  | Some a => Ok a
  | None => Raise KeyError
  end.

(** [key in data] *)
Definition contains (data : npz) (key : string) : bool :=
  bool_decide (is_Some (data !! key)).

(** [np.savez(file, **kwds)], for keywords that are not names of parameters
    of [savez] itself: the file written (numpy appends [.npz] to a name that
    lacks it) and its members. *)
Definition savez (file : string) (kwds : npz) : string * npz :=
  (if PyStr.endswith file ".npz" then file else file +:+ ".npz", kwds).

(** What Python hands to [savez] for an optional string. *)
Definition of_opt_str (o : option string) : ndarray :=
  match o with
  | Some s => Str0 s
  | None => ObjNone
  end.

End Np.

Module Pd.
Import Np.

Inductive cell :=
| CStr (s : string)
| CInt (n : nat)
| CNum (x : R).

Record DataFrame := {
  df_index : list cell;
  df_columns : list cell;
  df_values : list (list cell)
}.

(** [RangeIndex(n)] *)
Definition range_index (n : nat) : list cell := map CInt (seq 0 n).

(** [pd.DataFrame(a)] for an array [a]: only 1-d and 2-d input is
    accepted. *)
Definition of_array (a : ndarray) : res DataFrame :=
  match a with
  | Arr2 n rows =>
      Ok {| df_index := range_index (length rows);
            df_columns := range_index n;
            df_values := map (map CNum) rows |}
  | Arr1 v =>
      Ok {| df_index := range_index (length v);
            df_columns := range_index 1;
            df_values := map (fun x => [CNum x]) v |}
  | StrArr l =>
      Ok {| df_index := range_index (length l);
            df_columns := range_index 1;
            df_values := map (fun s => [CStr s]) l |}
  | Scalar _ | Arr3 _ | Str0 _ | ObjNone => Raise ValueError
  end.

(** The labels an array provides for the index: [set_index] takes a
    one-dimensional array. *)
Definition axis_labels (a : ndarray) : res (list cell) :=
  match a with
  | StrArr l => Ok (map CStr l)
  | Arr1 v => Ok (map CNum v)
  | _ => Raise ValueError
  end.

(** The labels an array provides for the columns: a 0-d array is not a
    collection ([TypeError]), an array of more dimensions is not an index
    ([ValueError]). *)
Definition column_labels (a : ndarray) : res (list cell) :=
  match a with
  | StrArr l => Ok (map CStr l)
  | Arr1 v => Ok (map CNum v)
  | Scalar _ | Str0 _ | ObjNone => Raise TypeError
  | Arr2 _ _ | Arr3 _ => Raise ValueError
  end.

(** [df.set_index(a, inplace=True)] with an array [a] *)
Definition set_index (df : DataFrame) (a : ndarray) : res DataFrame :=
  labels ← axis_labels a;
  if (length labels =? length (df_index df))%nat
  then Ok {| df_index := labels;
             df_columns := df_columns df;
             df_values := df_values df |}
  else Raise ValueError.

(** [df.columns = a] *)
Definition set_columns (df : DataFrame) (a : ndarray) : res DataFrame :=
  labels ← column_labels a;
  if (length labels =? length (df_columns df))%nat
  then Ok {| df_index := df_index df;
             df_columns := labels;
             df_values := df_values df |}
  else Raise ValueError.

(** A CSV file as a table of cells: a header line, then one line per row. *)
Record Csv := {
  csv_header : list cell;
  csv_lines : list (list cell)
}.

(** [df.to_csv(path, index_label=label)] *)
Definition to_csv (df : DataFrame) (label : string) : Csv :=
  {| csv_header := CStr label :: df_columns df;
     csv_lines := zip_with cons (df_index df) (df_values df) |}.

End Pd.

(** ** The command-line driver *)

Module Cli.
Import PyStr RegionFiles Np Pd.

(** *** [pummel sort] *)

(** The two flags of the sort command's exclusive format group, as they
    appear on the command line. *)
Inductive format_flag :=
| VotersOnlyFlag    (* --voters-only: store_true, default=True *)
| AllPeopleFlag.    (* --all-people: store_false, dest='voters_only' *)

Definition format_flag_eqb (a b : format_flag) : bool :=
  match a, b with
  | VotersOnlyFlag, VotersOnlyFlag | AllPeopleFlag, AllPeopleFlag => true
  | _, _ => false
  end.

(** [args.voters_only] after parsing: the default is [True], each flag
    stores its constant, and the group rejects a command line that gives
    both. *)
Definition parse_voters_only (given : list format_flag) : res bool :=
  if existsb (format_flag_eqb VotersOnlyFlag) given
     && existsb (format_flag_eqb AllPeopleFlag) given
  then Raise ArgumentError
  else Ok (negb (existsb (format_flag_eqb AllPeopleFlag) given)).

Record SortArgs := {
  sa_zipfile : option string;
  sa_csv_files : option (list string);
  sa_out_dir : string;
  sa_chunksize : Z;
  sa_stats_only : bool;
  sa_voters_only : bool;
  sa_version : string
}.

(** Defaults of the sort command's options ([--chunksize], [--stats-only],
    [--voters-only], [--version]). *)
Definition sort_defaults (zipfile : option string) (csv_files : option (list string))
    (out_dir : string) : SortArgs :=
  {| sa_zipfile := zipfile;
     sa_csv_files := csv_files;
     sa_out_dir := out_dir;
     sa_chunksize := 10 ^ 5;
     sa_stats_only := false;
     sa_voters_only := true;
     sa_version := "2006-10" |}.

Inductive source :=
| ZipSource (path : string)
| CsvSource (paths : list string)
| NoSource.

(** [args.zipfile or args.csv_files] *)
Definition sort_source (a : SortArgs) : source :=
  match sa_zipfile a with
  | Some (String c z) => ZipSource (String c z)
  | _ =>
      match sa_csv_files a with
      | Some l => CsvSource l
      | None => NoSource
      end
  end.

(** The arguments of the call to [sort_by_region]. *)
Record SortCall := {
  sc_source : source;
  sc_out_fmt : string;
  sc_voters_only : bool;
  sc_stats_only : bool;
  sc_adj_inc : bool;
  sc_version : string;
  sc_chunksize : Z
}.

Definition sort_call (a : SortArgs) : SortCall :=
  {| sc_source := sort_source a;
     sc_out_fmt := store_pattern (sa_out_dir a);
     sc_voters_only := sa_voters_only a;
     sc_stats_only := sa_stats_only a;
     sc_adj_inc := true;
     sc_version := sa_version a;
     sc_chunksize := sa_chunksize a |}.

Section Sort.
Context {Stats Stores : Type}.
(** [os.path.isdir] on the file system the command finds. *)
Variable isdir : string -> bool.
(** [os.makedirs]: returns, or raises. *)
Variable makedirs : string -> res unit.
(** [sort_by_region]: returns the statistics, and leaves the region stores on
    disk. *)
Variable sort_by_region : SortCall -> res (Stats * Stores).
(** [save_stats], writing the statistics file. *)
Variable save_stats : string -> Stats -> res unit.

(** [do_sort]: the stores left on disk, and the statistics with the file
    [save_stats] put them in; or the exception raised. *)
Definition do_sort (a : SortArgs) : res (Stores * (string * Stats)) :=
  _ ← (if isdir (sa_out_dir a) then Ok tt else makedirs (sa_out_dir a));
  r ← sort_by_region (sort_call a);
  _ ← save_stats (path_join (sa_out_dir a) "stats.h5") r.1;
  Ok (r.2, (path_join (sa_out_dir a) "stats.h5", r.1)).
End Sort.

(** *** [pummel featurize] *)

Record FeaturizeArgs := {
  fa_dir : string;
  fa_outfile : option string;
  fa_chunksize : Z;
  fa_skip_rbf : bool;
  fa_n_freqs : Z;
  fa_bandwidth : option R;
  fa_rff_orthogonal : bool;
  fa_seed : option Z;
  fa_skip_feats : option (list string);
  fa_skip_alloc_flags : bool;
  fa_do_my_proc : bool;
  fa_do_my_additive : bool;
  fa_subsets : option string
}.

(** Defaults of the featurize command's options. *)
Definition featurize_defaults (dir : string) (outfile : option string) : FeaturizeArgs :=
  {| fa_dir := dir;
     fa_outfile := outfile;
     fa_chunksize := 2 ^ 13;
     fa_skip_rbf := false;
     fa_n_freqs := 2048;
     fa_bandwidth := None;
     fa_rff_orthogonal := true;
     fa_seed := None;
     fa_skip_feats := None;
     fa_skip_alloc_flags := true;
     fa_do_my_proc := false;
     fa_do_my_additive := false;
     fa_subsets := None |}.

(** The keyword arguments of the call to [get_embeddings]. *)
Record EmbedCall (Stats : Type) := {
  ec_files : list string;
  ec_stats : Stats;
  ec_chunksize : Z;
  ec_skip_rbf : bool;
  ec_skip_feats : option (list string);
  ec_subsets : option string;
  ec_skip_alloc_flags : bool;
  ec_seed : option Z;
  ec_n_freqs : Z;
  ec_bandwidth : option R;
  ec_rff_orthogonal : bool;
  ec_do_my_proc : bool;
  ec_do_my_additive : bool
}.
Arguments ec_files {Stats} _.
Arguments ec_stats {Stats} _.
Arguments ec_chunksize {Stats} _.
Arguments ec_skip_rbf {Stats} _.
Arguments ec_skip_feats {Stats} _.
Arguments ec_subsets {Stats} _.
Arguments ec_skip_alloc_flags {Stats} _.
Arguments ec_seed {Stats} _.
Arguments ec_n_freqs {Stats} _.
Arguments ec_bandwidth {Stats} _.
Arguments ec_rff_orthogonal {Stats} _.
Arguments ec_do_my_proc {Stats} _.
Arguments ec_do_my_additive {Stats} _.

(** The directory part of the pattern [os.path.join(dir, 'feats_*.h5')], as
    [glob] splits it off with [os.path.split]: [dir] without its trailing
    slashes, unless it consists of slashes only. *)
Definition glob_dirname (dir : string) : string :=
  match rstrip_sep dir with
  | EmptyString => dir
  | d => d
  end.

(** [glob(os.path.join(dir, 'feats_*.h5'))] for a directory [dir] whose
    entries are [entries]: the entries that match, each joined to the
    directory part of the pattern.  This is what [glob] returns when [dir] is
    taken literally, that is when [has_magic dir = false]; wildcards in [dir]
    itself would be expanded over several directories, which is not
    described here. *)
Definition glob_stores (dir : string) (entries : list string) : list string :=
  map (path_join (glob_dirname dir)) (List.filter glob_feats entries).

Section Featurize.
Context {Stats : Type}.
(** [load_stats], reading the statistics file. *)
Variable load_stats : string -> res Stats.
(** The entries of [args.dir]. *)
Variable entries : list string.
(** [get_embeddings]: the tuple it returns. *)
Variable get_embeddings : EmbedCall Stats -> res (list ndarray).

Definition featurize_outfile (a : FeaturizeArgs) : string :=
  match fa_outfile a with
  | Some f => f
  | None => path_join (fa_dir a) "embeddings.npz"
  end.

Definition featurize_files (a : FeaturizeArgs) : list string :=
  glob_stores (fa_dir a) entries.

Definition embed_call (a : FeaturizeArgs) (stats : Stats) : EmbedCall Stats :=
  {| ec_files := featurize_files a;
     ec_stats := stats;
     ec_chunksize := fa_chunksize a;
     ec_skip_rbf := fa_skip_rbf a;
     ec_skip_feats := fa_skip_feats a;
     ec_subsets := fa_subsets a;
     ec_skip_alloc_flags := fa_skip_alloc_flags a;
     ec_seed := fa_seed a;
     ec_n_freqs := fa_n_freqs a;
     ec_bandwidth := fa_bandwidth a;
     ec_rff_orthogonal := fa_rff_orthogonal a;
     ec_do_my_proc := fa_do_my_proc a;
     ec_do_my_additive := fa_do_my_additive a |}.

(** [res = dict(region_names=region_names, subset_queries=args.subsets)] *)
Definition featurize_res (a : FeaturizeArgs) : npz :=
  <["region_names" := StrArr (map featurize_region_name (featurize_files a))]>
    (<["subset_queries" := of_opt_str (fa_subsets a)]> ∅).

(** [do_featurize]: the archive written, or the exception raised.  The tuple
    from [get_embeddings] is unpacked into three names under [skip_rbf] and
    into six otherwise. *)
Definition do_featurize (a : FeaturizeArgs) : res (string * npz) :=
  stats ← load_stats (path_join (fa_dir a) "stats.h5");
  if fa_skip_rbf a then
    t ← get_embeddings (embed_call a stats);
    match t with
    | [emb_lin; region_weights; feature_names] =>
        Ok (savez (featurize_outfile a)
              (<["emb_lin" := emb_lin]>
                (<["region_weights" := region_weights]>
                  (<["feature_names" := feature_names]> (featurize_res a)))))
    | _ => Raise ValueError
    end
  else
    t ← get_embeddings (embed_call a stats);
    match t with
    | [emb_lin; emb_rff; rws; fs; bw; fns] =>
        Ok (savez (featurize_outfile a)
              (<["emb_lin" := emb_lin]>
                (<["emb_rff" := emb_rff]>
                  (<["region_weights" := rws]>
                    (<["freqs" := fs]>
                      (<["bandwidth" := bw]>
                        (<["feature_names" := fns]> (featurize_res a))))))))
    | _ => Raise ValueError
    end.
End Featurize.

(** *** [pummel export] *)

Record ExportArgs := {
  ea_dir : string;
  ea_infile : option string;
  ea_out_name : option string
}.

Definition export_infile (a : ExportArgs) : string :=
  match ea_infile a with
  | Some f => f
  | None => path_join (ea_dir a) "embeddings.npz"
  end.

Section ExportCommand.
(** [os.path.relpath] *)
Variable relpath : string -> string -> string.

Definition export_out_name (a : ExportArgs) : string :=
  match ea_out_name a with
  | Some n => n
  | None =>
      let rel := relpath (export_infile a) (ea_dir a) in
      if has_sep rel then "embeddings"
      else if endswith rel ".npz" then slice rel 0 (-4) else rel
  end.

Definition export_out_pattern (a : ExportArgs) : string :=
  path_join (ea_dir a) (export_out_name a +:+ "_{}.csv").

(** The frame written as the linear CSV. *)
Definition linear_frame (data : npz) : res DataFrame :=
  emb ← getitem data "emb_lin";
  df ← of_array emb;
  names ← getitem data "region_names";
  df ← set_index df names;
  feats ← getitem data "feature_names";
  set_columns df feats.

(** The frame written as the Fourier CSV. *)
Definition rff_frame (data : npz) : res DataFrame :=
  emb ← getitem data "emb_rff";
  df ← of_array emb;
  names ← getitem data "region_names";
  set_index df names.

(** [do_export] on the archive [data] loaded from [args.infile]: the CSV
    files written, in order, and the exception that ended the run, if any. *)
Definition do_export (a : ExportArgs) (data : npz)
    : list (string * Csv) * option pyerr :=
  match format1 (export_out_pattern a) "linear" with
  | Raise e => ([], Some e)
  | Ok path =>
      match linear_frame data with
      | Raise e => ([], Some e)
      | Ok df =>
          let written := [(path, to_csv df "region")] in
          if contains data "emb_rff" then
            match format1 (export_out_pattern a) "rff" with
            | Raise e => (written, Some e)
            | Ok path' =>
                match rff_frame data with
                | Raise e => (written, Some e)
                | Ok df' => ((written ++ [(path', to_csv df' "region")])%list, None)
                end
            end
          else (written, None)
      end
  end.
End ExportCommand.

End Cli.

(** ** The pipeline behind the driver

    [sort_by_region], the statistics and the embedding engine live in
    modules that are not part of the driver's file.  The parts of them the
    properties below depend on are modelled here from the specification
    (sections 3 and 4).  Weights and field values are floating-point numbers
    in the program; here they are real numbers, so nothing below speaks about
    rounding. *)

Module Pipeline.
Import PyStr RegionFiles Np.

(** Modelled from the spec: the Record of section 3 ([pummeler/reader.py] is
    not under src/).  Attributes are keyed by field name. *)
Record Row := {
  region : string;
  citizen : bool;
  age : Z;
  cats : gmap string Z;
  conts : gmap string R;
  adjinc : R;
  alloc_flags : gmap string bool;
  weight : R
}.

(** Modelled from the spec: the Streaming Reader hands out the rows of its
    source in chunks of at most [chunksize] rows, in order.  [room] is the
    number of rows the chunk under construction can still take. *)
Fixpoint chunk_go {A} (n room : nat) (cur : list A) (l : list A) : list (list A) :=
  match l with
  | [] => match cur with [] => [] | _ => [rev cur] end
  | x :: l' =>
      match room with
      | 0 | 1 => rev (x :: cur) :: chunk_go n n [] l'
      | S room' => chunk_go n room' (x :: cur) l'
      end
  end.

Definition read_chunks {A} (chunksize : Z) (l : list A) : res (list (list A)) :=
  if (chunksize <? 1)%Z then Raise ValueError
  else Ok (chunk_go (Z.to_nat chunksize) (Z.to_nat chunksize) [] l).

(** [sum(w_i)] over a table *)
Definition sum_weights (rows : list Row) : R :=
  foldr (fun r acc => (weight r + acc)%R) 0%R rows.

(** *** Record Filter & Transform *)

Section Transform.
(** The continuous fields that report an income. *)
Variable income_fields : gset string.

(** Modelled from the spec: voters_only keeps only citizen records aged at
    least 18 (section 4.2). *)
Definition eligible (r : Row) : bool :=
  citizen r && (18 <=? age r)%Z.

(** Modelled from the spec: the income adjustment multiplies the reported
    income fields by the record's adjustment factor (section 4.2). *)
Definition adjust_income (r : Row) : Row :=
  {| region := region r;
     citizen := citizen r;
     age := age r;
     cats := cats r;
     conts := map_imap (fun f x =>
                Some (if bool_decide (f ∈ income_fields)
                      then (x * adjinc r)%R else x)) (conts r);
     adjinc := adjinc r;
     alloc_flags := alloc_flags r;
     weight := weight r |}.

(** Modelled from the spec: the filter comes first, then the field
    adjustments (sections 2 and 4.2). *)
Definition transform (voters_only adj_inc : bool) (chunk : list Row) : list Row :=
  let kept := if voters_only then List.filter eligible chunk else chunk in
  if adj_inc then map adjust_income kept else kept.
End Transform.

(** *** Statistics Accumulator (section 4.1) *)

(** Modelled from the spec: per categorical field the set of values seen; the
    running total weight; per continuous field the running weighted sum and
    weighted sum of squares. *)
Record StatsState := {
  ss_vocab : gmap string (gset Z);
  ss_w : R;
  ss_wx : gmap string R;
  ss_wxx : gmap string R
}.

Definition stats_empty : StatsState :=
  {| ss_vocab := ∅; ss_w := 0%R; ss_wx := ∅; ss_wxx := ∅ |}.

Definition row_stats (r : Row) : StatsState :=
  {| ss_vocab := (fun v => {[ v ]}) <$> cats r;
     ss_w := weight r;
     ss_wx := (fun x => (weight r * x)%R) <$> conts r;
     ss_wxx := (fun x => (weight r * x * x)%R) <$> conts r |}.

Definition add_sums (a b : gmap string R) : gmap string R :=
  union_with (fun x y => Some (x + y)%R) a b.

Definition stats_merge (a b : StatsState) : StatsState :=
  {| ss_vocab := union_with (fun s t => Some (s ∪ t)) (ss_vocab a) (ss_vocab b);
     ss_w := (ss_w a + ss_w b)%R;
     ss_wx := add_sums (ss_wx a) (ss_wx b);
     ss_wxx := add_sums (ss_wxx a) (ss_wxx b) |}.

(** The sums of one chunk. *)
Definition chunk_stats (chunk : list Row) : StatsState :=
  foldr (fun r acc => stats_merge (row_stats r) acc) stats_empty chunk.

(** Modelled from the spec: [accumulate(stats_state, chunk)] adds the chunk's
    sums to the running ones. *)
Definition accumulate (st : StatsState) (chunk : list Row) : StatsState :=
  stats_merge st (chunk_stats chunk).

(** *** Region Partitioner (section 4.2) *)

(** Modelled from the spec: a region's store is its rows and its running
    total weight. *)
Record RegionStore := {
  rs_rows : list Row;
  rs_total_wt : R
}.

Definition store_append (a b : RegionStore) : RegionStore :=
  {| rs_rows := rs_rows a ++ rs_rows b;
     rs_total_wt := (rs_total_wt a + rs_total_wt b)%R |}.

(** The sub-tables of a chunk, by region, rows in chunk order. *)
Definition group_by_region (chunk : list Row) : gmap string (list Row) :=
  foldr (fun r g =>
           partial_alter (fun o => Some (r :: default [] o)) (region r) g)
        ∅ chunk.

(** Modelled from the spec: [partition(chunk)], each sub-table with the sum
    of its weight column. *)
Definition partition (chunk : list Row) : gmap string RegionStore :=
  (fun sub => {| rs_rows := sub; rs_total_wt := sum_weights sub |})
    <$> group_by_region chunk.

(** Modelled from the spec: each sub-table is appended to its region's store,
    created on demand, and its weight added to the store's total. *)
Definition partition_append (stores : gmap string RegionStore) (chunk : list Row)
    : gmap string RegionStore :=
  union_with (fun a b => Some (store_append a b)) stores (partition chunk).

(** The rows of a table that belong to region [r], in order. *)
Definition region_rows (r : string) (rows : list Row) : list Row :=
  List.filter (fun x => String.eqb (region x) r) rows.

(** The store that holds exactly [rows]; no store for no rows. *)
Definition store_of (rows : list Row) : option RegionStore :=
  match rows with
  | [] => None
  | _ => Some {| rs_rows := rows; rs_total_wt := sum_weights rows |}
  end.

(** *** The sort phase *)

Section SortPhase.
Variable income_fields : gset string.

(** Modelled from the spec: one step of the streaming pass.  The chunk is
    filtered and transformed once; the statistics and the partitioner both
    consume the result. *)
Definition sort_step (call : Cli.SortCall)
    (acc : StatsState * gmap string RegionStore) (chunk : list Row)
    : StatsState * gmap string RegionStore :=
  let c := transform income_fields (Cli.sc_voters_only call) (Cli.sc_adj_inc call) chunk in
  (accumulate acc.1 c,
   if Cli.sc_stats_only call then acc.2 else partition_append acc.2 c).

Definition sort_chunks (call : Cli.SortCall) (chunks : list (list Row))
    : StatsState * gmap string RegionStore :=
  foldl (sort_step call) (stats_empty, ∅) chunks.

End SortPhase.

(** Modelled from the spec: [sort_by_region] ([pummeler/sort.py] is not under
    src/) names the store of region [r] by filling the pattern it was called
    with, [out_fmt.format(r)]. *)
Definition store_path (call : Cli.SortCall) (r : string) : res string :=
  format1 (Cli.sc_out_fmt call) r.

(** *** Kernel Embedding Engine (section 4.5) *)

Definition vzero (n : nat) : list R := replicate n 0%R.
Definition vadd (a b : list R) : list R := zip_with Rplus a b.
Definition vscale (c : R) (v : list R) : list R := map (Rmult c) v.
Definition dot (a b : list R) : R := foldr Rplus 0%R (zip_with Rmult a b).

(** A fold whose step can raise. *)
Fixpoint foldM_res {A B} (f : B -> A -> res B) (b : B) (l : list A) : res B :=
  match l with
  | [] => Ok b
  | x :: l' => b' ← f b x; foldM_res f b' l'
  end.

(** Modelled from the spec: the RegionEmbedding of section 3. *)
Record RegionEmbedding := {
  re_lin : list R;
  re_rff : option (list R);
  re_weight : R
}.

(** The running weighted sums of one region. *)
Record EmbAcc := {
  acc_w : R;
  acc_lin : list R;
  acc_rff : option (list R)
}.

Section Embed.
(** The Feature Encoder (section 4.3) under the finalized statistics and the
    options in force: the width of the design matrix, its column names, and
    the encoding of one raw row. *)
Variable n_feats : nat.
Variable feature_names : list string.
Variable encode_row : Row -> res (list R).
(** The frequency matrix, one row per frequency, when the Fourier embedding
    is wanted. *)
Variable freqs : option (list (list R)).

(** Modelled from the spec: [[cos(Fx), sin(Fx)] / sqrt(n_freqs)]. *)
Definition rff_features (F : list (list R)) (x : list R) : list R :=
  let proj := map (fun f => dot f x) F in
  vscale (/ sqrt (INR (length F))) (map cos proj ++ map sin proj).

Definition acc_empty : EmbAcc :=
  {| acc_w := 0%R;
     acc_lin := vzero n_feats;
     acc_rff := (fun F => vzero (2 * length F)) <$> freqs |}.

Definition acc_row (acc : EmbAcc) (r : Row) : res EmbAcc :=
  x ← encode_row r;
  Ok {| acc_w := (acc_w acc + weight r)%R;
        acc_lin := vadd (acc_lin acc) (vscale (weight r) x);
        acc_rff :=
          match freqs, acc_rff acc with
          | Some F, Some s => Some (vadd s (vscale (weight r) (rff_features F x)))
          | _, _ => None
          end |}.

(** Modelled from the spec: a subset restricts the chunk to its matching
    rows; those are encoded and added to the running sums (sections 4.3
    and 4.5). *)
Definition embed_chunk (subset : Row -> bool) (acc : EmbAcc) (chunk : list Row)
    : res EmbAcc :=
  foldM_res acc_row acc (List.filter subset chunk).

(** Modelled from the spec: the weighted averages [sum(w_i * x_i) / sum(w_i)];
    a region and subset without weight has the all-zero embedding and
    weight 0. *)
Definition finish (acc : EmbAcc) : RegionEmbedding :=
  if Req_dec_T (acc_w acc) 0 then
    {| re_lin := vzero n_feats;
       re_rff := (fun F => vzero (2 * length F)) <$> freqs;
       re_weight := 0%R |}
  else
    {| re_lin := vscale (/ acc_w acc) (acc_lin acc);
       re_rff := vscale (/ acc_w acc) <$> acc_rff acc;
       re_weight := acc_w acc |}.

(** Modelled from the spec: [embed] for one region, streamed chunk by
    chunk. *)
Definition embed_region (subset : Row -> bool) (chunksize : Z) (rows : list Row)
    : res RegionEmbedding :=
  chunks ← read_chunks chunksize rows;
  acc ← foldM_res (embed_chunk subset) acc_empty chunks;
  Ok (finish acc).
End Embed.

End Pipeline.

(** ** A small run, used to exercise the definitions *)

Module Examples.
Import PyStr RegionFiles Np Pd Cli Pipeline.

Definition adult_a : Row :=
  {| region := "A"; citizen := true; age := 30;
     cats := {[ "SEX" := 1%Z ]}; conts := {[ "PINCP" := 1000%R ]};
     adjinc := 2%R; alloc_flags := ∅; weight := 3%R |}.

Definition child_a : Row :=
  {| region := "A"; citizen := true; age := 10;
     cats := {[ "SEX" := 2%Z ]}; conts := {[ "PINCP" := 0%R ]};
     adjinc := 2%R; alloc_flags := ∅; weight := 5%R |}.

Definition adult_b : Row :=
  {| region := "B"; citizen := true; age := 52;
     cats := {[ "SEX" := 2%Z ]}; conts := {[ "PINCP" := 500%R ]};
     adjinc := 2%R; alloc_flags := ∅; weight := 4%R |}.

Definition income : gset string := {[ "PINCP" ]}.

Definition sort_args : SortArgs :=
  sort_defaults None (Some ["acs.csv"]) "out".

Definition source_chunks : list (list Row) := [[adult_a; child_a]; [adult_b]].

(** The stores the sort phase leaves for [source_chunks]. *)
Definition sorted_stores : gmap string RegionStore :=
  (sort_chunks income (sort_call sort_args) source_chunks).2.

Definition sorted_listing : list (string * RegionStore) :=
  map_to_list sorted_stores.

Definition sorted_entries : list string :=
  "stats.h5" :: map (fun p => store_file_name p.1) sorted_listing.

Definition featurize_args : FeaturizeArgs := featurize_defaults "out" None.

Definition linear_only_args : FeaturizeArgs :=
  {| fa_dir := "out"; fa_outfile := None; fa_chunksize := 2 ^ 13;
     fa_skip_rbf := true; fa_n_freqs := 2048; fa_bandwidth := None;
     fa_rff_orthogonal := true; fa_seed := None; fa_skip_feats := None;
     fa_skip_alloc_flags := true; fa_do_my_proc := false;
     fa_do_my_additive := false; fa_subsets := None |}.

(** An encoder with a single column, the constant 1. *)
Definition unit_encoder (r : Row) : res (list R) := Ok [1%R].

(** A [get_embeddings] for the two stores of the example: one feature, no
    frequencies; the tuple has three members under [skip_rbf] and six
    otherwise. *)
Definition example_get_embeddings (call : EmbedCall unit) : res (list ndarray) :=
  if ec_skip_rbf call
  then Ok [Arr2 1 [[1%R]; [1%R]]; Arr1 [3%R; 4%R]; StrArr ["one"]]
  else Ok [Arr2 1 [[1%R]; [1%R]]; Arr2 0 [[]; []]; Arr1 [3%R; 4%R];
           Arr2 1 []; Scalar 1%R; StrArr ["one"]].

Definition example_load_stats (path : string) : res unit := Ok tt.

(** The outcome of featurizing the sorted directory. *)
Definition example_featurize (fa : FeaturizeArgs) : res (string * npz) :=
  do_featurize example_load_stats sorted_entries example_get_embeddings fa.

Definition written_archive (fa : FeaturizeArgs) : string * npz :=
  match example_featurize fa with
  | Ok out => out
  | Raise _ => ("", ∅)
  end.

(** A hand-made archive of two regions and two features. *)
Definition small_archive : npz :=
  <["emb_lin" := Arr2 2 [[1%R; 0%R]; [0%R; 1%R]]]>
    (<["region_weights" := Arr1 [3%R; 4%R]]>
      (<["feature_names" := StrArr ["SEX_1"; "PINCP"]]>
        (<["region_names" := StrArr ["A"; "B"]]>
          (<["subset_queries" := ObjNone]> ∅)))).

Definition export_args : ExportArgs :=
  {| ea_dir := "out"; ea_infile := None; ea_out_name := Some "embeddings" |}.

(** The same for an output directory whose name has a brace. *)
Definition brace_export_args : ExportArgs :=
  {| ea_dir := "out}"; ea_infile := None; ea_out_name := Some "embeddings" |}.

(** The same for a base name with a brace. *)
Definition brace_name_export_args : ExportArgs :=
  {| ea_dir := "out"; ea_infile := None; ea_out_name := Some "emb}" |}.

(** The sort command on an output directory whose name has a brace. *)
Definition brace_sort_args : SortArgs :=
  sort_defaults None (Some ["acs.csv"]) "out}".

Definition no_relpath (path start : string) : string := path.

End Examples.

(** ** The remaining commands of the driver *)

Module States.
Import PyStr Np.

(** *** [pummel state-features] *)

Record StatesArgs := {
  sta_infile : string;
  sta_outfile : option string
}.

(** [do_states]: the [args.outfile] handed to [np.savez]; by default the
    input's name, without a final [.npz], followed by [_states.npz]. *)
Definition states_outfile (a : StatesArgs) : string :=
  match sta_outfile a with
  | Some f => f
  | None =>
      let inf := if endswith (sta_infile a) ".npz"
                 then slice (sta_infile a) 0 (-4)
                 else sta_infile a in
      inf +:+ "_states.npz"
  end.

End States.

Module WeightCounts.
Import PyStr RegionFiles Np Pd.

(** *** [pummel weight-counts], with the files it reads *)

Record WeightCountsArgs := {
  wa_dir : string;
  wa_outfile : option string
}.

Definition weight_counts_outfile (a : WeightCountsArgs) : string :=
  match wa_outfile a with
  | Some f => f
  | None => path_join (wa_dir a) "weight_counts.csv"
  end.

Section DoWeightCounts.
(** [h5py.File(path, 'r')['total_wt'][()]]: the total a store file holds,
    or the exception opening or reading it raises. *)
Variable read_total_wt : string -> res R.

(** The loop over [os.listdir(args.dir)]: only the entries that pass the
    guard are opened. *)
Fixpoint read_mapping (dir : string) (entries : list string)
    (mapping : gmap string R) : res (gmap string R) :=
  match entries with
  | [] => Ok mapping
  | fn :: rest =>
      match weight_counts_region fn with
      | Some region =>
          total_wt ← read_total_wt (path_join dir fn);
          read_mapping dir rest (<[region := total_wt]> mapping)
      | None => read_mapping dir rest mapping
      end
  end.

(** [pd.DataFrame.from_dict(mapping, orient='index')] for scalar values: one
    row per key and a single column, labelled 0; no column at all for an
    empty dict.  The order of the rows is the dict's and is not modelled. *)
Definition from_dict_index (mapping : gmap string R) : DataFrame :=
  let items := map_to_list mapping in
  {| df_index := map (fun p => CStr p.1) items;
     df_columns := match items with [] => [] | _ => range_index 1 end;
     df_values := map (fun p => [CNum p.2]) items |}.

(** [df.columns = names] for a list of names *)
Definition set_column_names (df : DataFrame) (names : list string) : res DataFrame :=
  if (length names =? length (df_columns df))%nat
  then Ok {| df_index := df_index df;
             df_columns := map CStr names;
             df_values := df_values df |}
  else Raise ValueError.

(** [do_weight_counts]: the CSV written (its index is named [region]), or
    the exception raised. *)
Definition do_weight_counts (a : WeightCountsArgs) (entries : list string)
    : res (string * Csv) :=
  mapping ← read_mapping (wa_dir a) entries ∅;
  df ← set_column_names (from_dict_index mapping) ["total_wt"];
  Ok (weight_counts_outfile a, to_csv df "region").
End DoWeightCounts.

(** The total an entry contributes when its file can be read. *)
Definition total_or_zero (read_total_wt : string -> res R) (dir fn : string) : R :=
  match read_total_wt (path_join dir fn) with
  | Ok w => w
  | Raise _ => 0%R
  end.

(** The region and total of every entry the guard of [do_weight_counts] lets
    through, in the order of the listing. *)
Definition store_totals (read_total_wt : string -> res R) (dir : string)
    (entries : list string) : list (string * R) :=
  omap (fun fn =>
          match weight_counts_region fn with
          | Some region => Some (region, total_or_zero read_total_wt dir fn)
          | None => None
          end) entries.

End WeightCounts.

Module MoreExamples.
Import PyStr RegionFiles Np Pd Cli States WeightCounts Examples.

Definition states_args : StatesArgs :=
  {| sta_infile := "out/embeddings.npz"; sta_outfile := None |}.

Definition weight_counts_args : WeightCountsArgs :=
  {| wa_dir := "out"; wa_outfile := None |}.

Definition listing : list string := ["stats.h5"; "feats_A.h5"; "feats_B.h5"].

(** A reader that finds total 3 in A's store and 4 in B's. *)
Definition read_example (path : string) : res R :=
  if String.eqb path "out/feats_A.h5" then Ok 3%R
  else if String.eqb path "out/feats_B.h5" then Ok 4%R
  else Raise IOError.

(** An archive whose Fourier embedding lacks a row. *)
Definition short_rff_archive : npz :=
  <["emb_rff" := Arr2 2 [[1%R; 0%R]]]> small_archive.

(** An archive with both embeddings. *)
Definition full_archive : npz :=
  <["emb_rff" := Arr2 1 [[1%R]; [0%R]]]> small_archive.

Definition default_export_args : ExportArgs :=
  {| ea_dir := "out"; ea_infile := None; ea_out_name := None |}.

(** [os.path.relpath] on the example's paths. *)
Definition example_relpath (path start : string) : string := basename path.

Definition two_stores_get_embeddings (call : EmbedCall unit) : res (list ndarray) :=
  Ok [Arr2 1 [[1%R]; [0%R]]; Arr1 [3%R; 4%R]; StrArr ["one"]].

(** A file system on which only [out] is a directory, and on which no
    directory can be created. *)
Definition only_out (path : string) : bool := String.eqb path "out".
Definition no_makedirs (path : string) : res unit := Raise IOError.

Definition example_sort_by_region (call : SortCall) : res (unit * unit) := Ok (tt, tt).
Definition example_save_stats (path : string) (stats : unit) : res unit := Ok tt.

Definition fresh_sort_args : SortArgs :=
  sort_defaults None (Some ["acs.csv"]) "fresh".

End MoreExamples.

(** * Properties *)

Open Scope list_scope.

(** ** Facts about strings and paths *)

Import PyStr RegionFiles.

Lemma length_append (a b : string) :
  String.length (a +:+ b) = (String.length a + String.length b)%nat.
Proof. induction a as [|c a IH]; simpl; [reflexivity | now rewrite IH]. Qed.

Lemma substring_skip (a b : string) (m : nat) :
  substring (String.length a) m (a +:+ b) = substring 0 m b.
Proof. induction a as [|c a IH]; simpl; [reflexivity | exact IH]. Qed.

Lemma substring_take (r b : string) :
  substring 0 (String.length r) (r +:+ b) = r.
Proof.
  induction r as [|c r IH]; simpl.
  - now destruct b.
  - now rewrite IH.
Qed.

Lemma substring_all (b : string) : substring 0 (String.length b) b = b.
Proof. induction b as [|c b IH]; simpl; [reflexivity | now rewrite IH]. Qed.

Lemma endswith_append (a p : string) : endswith (a +:+ p) p = true.
Proof.
  unfold endswith. rewrite length_append.
  replace (String.length a + String.length p - String.length p)%nat
    with (String.length a) by lia.
  rewrite substring_skip, substring_all, String.eqb_refl.
  rewrite andb_true_r. apply Nat.leb_le. lia.
Qed.

Lemma append_assoc (a b c : string) : (a +:+ b) +:+ c = a +:+ (b +:+ c).
Proof.
  induction a as [|x a IH]; [reflexivity |].
  change (String x ((a +:+ b) +:+ c) = String x (a +:+ (b +:+ c))).
  now rewrite IH.
Qed.

(** The slice [[6:-3]] of a store's file name is the region identifier. *)
Lemma slice_store_file_name (r : string) :
  slice (store_file_name r) 6 (-3) = r.
Proof.
  unfold slice, store_file_name, slice_bound.
  rewrite !length_append. simpl String.length.
  set (n := String.length r).
  replace (-3 <? 0)%Z with true by reflexivity.
  replace (6 <? 0)%Z with false by reflexivity.
  rewrite Z.min_l by lia.
  rewrite Z.max_r by lia.
  replace (Z.to_nat 6) with (String.length "feats_") by reflexivity.
  replace (Z.to_nat _) with n by lia.
  rewrite substring_skip. apply substring_take.
Qed.

Lemma startswith_store_file_name (r : string) :
  startswith (store_file_name r) "feats_" = true.
Proof. reflexivity. Qed.

Lemma endswith_store_file_name (r : string) :
  endswith (store_file_name r) ".h5" = true.
Proof.
  unfold store_file_name. rewrite <- append_assoc. apply endswith_append.
Qed.

Lemma glob_feats_store_file_name (r : string) :
  glob_feats (store_file_name r) = true.
Proof.
  unfold glob_feats.
  rewrite startswith_store_file_name, endswith_store_file_name.
  unfold store_file_name. rewrite !length_append.
  apply Nat.leb_le. simpl String.length. lia.
Qed.

Lemma weight_counts_region_store_file_name (r : string) :
  weight_counts_region (store_file_name r) = Some r.
Proof.
  unfold weight_counts_region.
  rewrite startswith_store_file_name, endswith_store_file_name. simpl andb. cbv iota.
  f_equal. apply slice_store_file_name.
Qed.

(** *** Paths of region stores *)

Lemma has_sep_append (a b : string) :
  has_sep (a +:+ b) = has_sep a || has_sep b.
Proof.
  induction a as [|c a IH]; [reflexivity |].
  change (has_sep (String c (a +:+ b)) = has_sep (String c a) || has_sep b).
  simpl. rewrite IH. now rewrite orb_assoc.
Qed.

Lemma basename_no_sep (b : string) : has_sep b = false -> basename b = b.
Proof.
  destruct b as [|c b]; [reflexivity |]. simpl.
  intros H. apply orb_false_iff in H as [Hc Hb]. now rewrite Hb, Hc.
Qed.

Lemma basename_append_sep (a b : string) :
  has_sep b = false -> basename (a +:+ String "/" b) = b.
Proof.
  intros Hb. induction a as [|c a IH].
  - change (basename (String "/" b) = b). simpl. now rewrite Hb.
  - change (basename (String c (a +:+ String "/" b)) = b).
    simpl. rewrite has_sep_append. simpl. now rewrite orb_true_r.
Qed.

Lemma endswith_sep_inv (a : string) :
  endswith a "/" = true -> exists a', a = a' +:+ "/".
Proof.
  induction a as [|c a IH]; [discriminate |].
  unfold endswith. simpl String.length. intros H.
  destruct a as [|d a].
  - simpl in H. destruct (Ascii.eqb_spec c "/") as [-> |]; [now exists "" | discriminate].
  - destruct IH as [a' Ha'].
    + unfold endswith. simpl String.length.
      simpl in H. simpl. rewrite Nat.sub_0_r in *. exact H.
    + exists (String c a'). rewrite Ha'. reflexivity.
Qed.

Lemma startswith_sep (fn : string) :
  startswith fn "/" = true -> has_sep fn = true.
Proof.
  destruct fn as [|c fn]; [discriminate |]. cbn -[Ascii.eqb].
  rewrite andb_true_r. intros H. rewrite Ascii.eqb_sym in H. now rewrite H.
Qed.

(** A directory entry joined to its directory has the entry as its
    basename. *)
Lemma basename_path_join (dir fn : string) :
  has_sep fn = false -> basename (path_join dir fn) = fn.
Proof.
  intros Hfn. unfold path_join.
  destruct (startswith fn "/") eqn:Hs.
  { apply startswith_sep in Hs. congruence. }
  destruct (String.eqb dir "") eqn:Hd.
  { apply String.eqb_eq in Hd. subst dir. now apply basename_no_sep. }
  simpl orb. destruct (endswith dir "/") eqn:He.
  - apply endswith_sep_inv in He as [a' ->].
    rewrite append_assoc. now apply basename_append_sep.
  - now apply basename_append_sep.
Qed.

Lemma has_sep_store_file_name (r : string) :
  has_sep (store_file_name r) = has_sep r.
Proof.
  unfold store_file_name. rewrite !has_sep_append. simpl.
  now rewrite orb_false_r.
Qed.

(** Text without braces is copied by [str.format]. *)
Lemma format_go_append (a pat arg : string) (used : bool) :
  has_brace a = false ->
  format_go (a +:+ pat) arg used = res_map (String.append a) (format_go pat arg used).
Proof.
  intros Ha. induction a as [|c a IH].
  - change ("" +:+ pat) with pat. now destruct (format_go pat arg used).
  - change (format_go (String c (a +:+ pat)) arg used
            = res_map (String.append (String c a)) (format_go pat arg used)).
    simpl in Ha. apply orb_false_iff in Ha as [Hc Ha].
    apply orb_false_iff in Hc as [Hc1 Hc2].
    cbn -[Ascii.eqb]. rewrite Hc1, Hc2, (IH Ha).
    now destruct (format_go pat arg used).
Qed.

Lemma format1_append (a pat arg : string) :
  has_brace a = false ->
  format1 (a +:+ pat) arg = res_map (String.append a) (format1 pat arg).
Proof. apply format_go_append. Qed.

Lemma has_brace_append (a b : string) :
  has_brace (a +:+ b) = has_brace a || has_brace b.
Proof.
  induction a as [|c a IH]; [reflexivity |].
  change (has_brace (String c (a +:+ b)) = has_brace (String c a) || has_brace b).
  simpl. rewrite IH. now rewrite !orb_assoc.
Qed.

Import Cli.

(** The path [sort_by_region] gets from the driver's pattern for region [r]
    is the store's file name inside the output directory. *)
Lemma store_path_join (a : SortArgs) (r : string) :
  has_brace (sa_out_dir a) = false ->
  Pipeline.store_path (sort_call a) r = Ok (path_join (sa_out_dir a) (store_file_name r)).
Proof.
  intros Hb. unfold Pipeline.store_path. cbn [sort_call sc_out_fmt].
  unfold store_pattern, path_join.
  change (startswith "feats_{}.h5" "/") with false.
  change (startswith (store_file_name r) "/") with false. cbv iota.
  destruct (String.eqb (sa_out_dir a) "" || endswith (sa_out_dir a) "/").
  - rewrite format1_append by exact Hb. reflexivity.
  - rewrite format1_append by exact Hb.
    rewrite format1_append by reflexivity. reflexivity.
Qed.


(** ** Facts about the driver *)

Import PyStr RegionFiles Np Pd Cli.

(** Looks a literal key up in a map built by inserting literal keys. *)
Ltac lookup_keys :=
  repeat first
    [ rewrite lookup_insert_eq
    | rewrite lookup_insert_ne by discriminate
    | rewrite lookup_empty ].

Section FeaturizeFacts.
Context {Stats : Type}.
Variable load_stats : string -> res Stats.
Variable entries : list string.
Variable get_embeddings : EmbedCall Stats -> res (list ndarray).

(** What a run of [do_featurize] that wrote an archive went through. *)
Lemma do_featurize_inv (a : FeaturizeArgs) (file : string) (archive : npz) :
  do_featurize load_stats entries get_embeddings a = Ok (file, archive) ->
  exists stats t,
    load_stats (path_join (fa_dir a) "stats.h5") = Ok stats /\
    get_embeddings (embed_call entries a stats) = Ok t /\
    file = (savez (featurize_outfile a) archive).1 /\
    ((fa_skip_rbf a = true /\
      exists lin rw fns, t = [lin; rw; fns] /\
        archive = <["emb_lin" := lin]>
                    (<["region_weights" := rw]>
                      (<["feature_names" := fns]> (featurize_res entries a)))) \/
     (fa_skip_rbf a = false /\
      exists lin rff rw fs bw fns, t = [lin; rff; rw; fs; bw; fns] /\
        archive = <["emb_lin" := lin]>
                    (<["emb_rff" := rff]>
                      (<["region_weights" := rw]>
                        (<["freqs" := fs]>
                          (<["bandwidth" := bw]>
                            (<["feature_names" := fns]> (featurize_res entries a)))))))).
Proof.
  unfold do_featurize.
  destruct (load_stats _) as [stats|e] eqn:Hs; unfold mbind, res_bind; [| discriminate].
  destruct (fa_skip_rbf a) eqn:Hskip.
  - destruct (get_embeddings _) as [t|e] eqn:Ht; [| discriminate].
    destruct t as [|lin [|rw [|fns [|x t]]]]; try discriminate.
    intros [= <- <-]. exists stats, [lin; rw; fns].
    split; [reflexivity |]. split; [exact Ht |]. split; [reflexivity |].
    left. split; [reflexivity |]. now exists lin, rw, fns.
  - destruct (get_embeddings _) as [t|e] eqn:Ht; [| discriminate].
    destruct t as [|lin [|rff [|rw [|fs [|bw [|fns [|x t]]]]]]]; try discriminate.
    intros [= <- <-]. exists stats, [lin; rff; rw; fs; bw; fns].
    split; [reflexivity |]. split; [exact Ht |]. split; [reflexivity |].
    right. split; [reflexivity |]. now exists lin, rff, rw, fs, bw, fns.
Qed.

Lemma featurize_res_names (a : FeaturizeArgs) :
  featurize_res entries a !! "region_names" =
    Some (StrArr (map featurize_region_name (featurize_files entries a))).
Proof. unfold featurize_res. now lookup_keys. Qed.

Lemma featurize_res_queries (a : FeaturizeArgs) :
  featurize_res entries a !! "subset_queries" = Some (of_opt_str (fa_subsets a)).
Proof. unfold featurize_res. now lookup_keys. Qed.

Lemma dom_featurize_res (a : FeaturizeArgs) :
  dom (featurize_res entries a) = ({[ "region_names"; "subset_queries" ]} : gset string).
Proof. unfold featurize_res. rewrite !dom_insert_L, dom_empty_L. set_solver. Qed.

End FeaturizeFacts.

(** C3: with [skip_rbf] the archive holds exactly the linear embedding, the
    region weights, the feature names, the region names and the subset
    queries; there is no Fourier embedding, frequency matrix or bandwidth
    member at all.  The three arrays are the ones [get_embeddings] returned. *)
Theorem skip_rbf_archive {Stats : Type} (load_stats : string -> res Stats)
    (entries : list string) (get_embeddings : EmbedCall Stats -> res (list ndarray))
    (a : FeaturizeArgs) (file : string) (archive : npz) :
  fa_skip_rbf a = true ->
  do_featurize load_stats entries get_embeddings a = Ok (file, archive) ->
  dom archive = ({[ "emb_lin"; "region_weights"; "feature_names";
                    "region_names"; "subset_queries" ]} : gset string) /\
  archive !! "emb_rff" = None /\
  archive !! "freqs" = None /\
  archive !! "bandwidth" = None /\
  exists stats lin rw fns,
    get_embeddings (embed_call entries a stats) = Ok [lin; rw; fns] /\
    ec_skip_rbf (embed_call entries a stats) = true /\
    archive !! "emb_lin" = Some lin /\
    archive !! "region_weights" = Some rw /\
    archive !! "feature_names" = Some fns /\
    archive !! "region_names" =
      Some (StrArr (map featurize_region_name (featurize_files entries a))) /\
    archive !! "subset_queries" = Some (of_opt_str (fa_subsets a)).
Proof.
  intros Hskip Hrun.
  apply do_featurize_inv in Hrun as (stats & t & _ & Ht & _ & [Hlin | Hrff]).
  2: { destruct Hrff as [Hno _]. congruence. }
  destruct Hlin as (_ & lin & rw & fns & -> & ->).
  split.
  { rewrite !dom_insert_L, dom_featurize_res. set_solver. }
  unfold featurize_res.
  repeat split; try (now lookup_keys).
  exists stats, lin, rw, fns.
  repeat split; try (now lookup_keys); assumption.
Qed.

(** C4: the featurize command writes one archive.  It always holds the
    linear embedding, the region weights, the feature names and the region
    names; it holds the Fourier embedding, the frequency matrix and the
    bandwidth exactly when the Fourier embedding is not skipped; and when
    subset queries were supplied it holds their string. *)
Theorem embedding_archive_contents {Stats : Type} (load_stats : string -> res Stats)
    (entries : list string) (get_embeddings : EmbedCall Stats -> res (list ndarray))
    (a : FeaturizeArgs) (file : string) (archive : npz) :
  do_featurize load_stats entries get_embeddings a = Ok (file, archive) ->
  (exists stats t,
     get_embeddings (embed_call entries a stats) = Ok t /\
     archive !! "emb_lin" = t !! 0%nat /\
     archive !! "region_weights" = t !! (if fa_skip_rbf a then 1 else 2)%nat /\
     archive !! "feature_names" = t !! (if fa_skip_rbf a then 2 else 5)%nat /\
     (fa_skip_rbf a = false ->
      archive !! "emb_rff" = t !! 1%nat /\
      archive !! "freqs" = t !! 3%nat /\
      archive !! "bandwidth" = t !! 4%nat)) /\
  is_Some (archive !! "emb_lin") /\
  is_Some (archive !! "region_weights") /\
  is_Some (archive !! "feature_names") /\
  archive !! "region_names" =
    Some (StrArr (map featurize_region_name (featurize_files entries a))) /\
  (is_Some (archive !! "emb_rff") <-> fa_skip_rbf a = false) /\
  (is_Some (archive !! "freqs") <-> fa_skip_rbf a = false) /\
  (is_Some (archive !! "bandwidth") <-> fa_skip_rbf a = false) /\
  (forall q, fa_subsets a = Some q -> archive !! "subset_queries" = Some (Str0 q)).
Proof.
  intros Hrun.
  apply do_featurize_inv in Hrun as (stats & t & _ & Ht & _ & [Hlin | Hrff]).
  - destruct Hlin as (Hskip & lin & rw & fns & -> & ->). rewrite Hskip.
    unfold featurize_res.
    split; [exists stats, [lin; rw; fns]; repeat split;
            try assumption; try (now lookup_keys); discriminate |].
    repeat split; try (now lookup_keys); try discriminate;
      try (lookup_keys; intros [? [=]]).
    intros q ->. now lookup_keys.
  - destruct Hrff as (Hskip & lin & rff & rw & fs & bw & fns & -> & ->).
    rewrite Hskip. unfold featurize_res.
    split; [exists stats, [lin; rff; rw; fs; bw; fns]; repeat split;
            try assumption; now lookup_keys |].
    repeat split; try (now lookup_keys).
    intros q ->. now lookup_keys.
Qed.


(** *** The export command *)

Lemma format1_field (what : string) :
  format1 "_{}.csv" what = Ok ("_" +:+ what +:+ ".csv").
Proof. reflexivity. Qed.

Lemma startswith_sep_append (name x y : string) :
  startswith ("_" +:+ x) "/" = startswith ("_" +:+ y) "/" ->
  startswith (name +:+ "_" +:+ x) "/" = startswith (name +:+ "_" +:+ y) "/".
Proof. destruct name as [|c name]; [intros H; exact H | reflexivity]. Qed.

(** The path of an exported file: [DIR/BASE_what.csv]. *)
Lemma format_out_pattern (dir name what : string) :
  has_brace dir = false ->
  has_brace name = false ->
  format1 (path_join dir (name +:+ "_{}.csv")) what =
    Ok (path_join dir (name +:+ "_" +:+ what +:+ ".csv")).
Proof.
  intros Hd Hn. unfold path_join.
  change (name +:+ "_{}.csv") with (name +:+ "_" +:+ "{}.csv").
  rewrite (startswith_sep_append name "{}.csv" (what +:+ ".csv")) by reflexivity.
  change (name +:+ "_" +:+ "{}.csv") with (name +:+ "_{}.csv").
  assert (Hname : format1 (name +:+ "_{}.csv") what
                  = Ok (name +:+ "_" +:+ what +:+ ".csv")).
  { rewrite format1_append by exact Hn. now rewrite format1_field. }
  destruct (startswith _ "/"); [exact Hname |].
  destruct (String.eqb dir "" || endswith dir "/").
  - rewrite format1_append by exact Hd. now rewrite Hname.
  - rewrite format1_append by exact Hd.
    rewrite format1_append by reflexivity. now rewrite Hname.
Qed.

Lemma zip_with_cons_cells {A} (f : A -> cell) (names : list A) (rows : list (list R)) :
  zip_with cons (map f names) (map (map CNum) rows) =
    zip_with (fun name row => f name :: map CNum row) names rows.
Proof.
  revert rows. induction names as [|n names IH]; intros [|row rows]; simpl;
    try reflexivity.
  now rewrite IH.
Qed.

Lemma linear_frame_ok (data : npz) (names fns : list string) (d : nat)
    (rows : list (list R)) :
  data !! "region_names" = Some (StrArr names) ->
  data !! "feature_names" = Some (StrArr fns) ->
  data !! "emb_lin" = Some (Arr2 d rows) ->
  linear_frame data =
    if (length names =? length rows)%nat
    then if (length fns =? d)%nat
         then Ok {| df_index := map CStr names;
                    df_columns := map CStr fns;
                    df_values := map (map CNum) rows |}
         else Raise ValueError
    else Raise ValueError.
Proof.
  intros Hn Hf Hl. unfold linear_frame, getitem. rewrite Hl, Hn, Hf.
  unfold mbind, res_bind, of_array, set_index, set_columns, axis_labels, column_labels.
  unfold mbind, res_bind. cbn [df_index df_columns df_values].
  unfold range_index. rewrite !length_map, !length_seq.
  destruct (length names =? length rows)%nat; [| reflexivity].
  cbn [df_index df_columns df_values]. rewrite !length_map, length_seq.
  now destruct (length fns =? d)%nat.
Qed.

Lemma rff_frame_ok (data : npz) (names : list string) (k : nat)
    (rows : list (list R)) :
  data !! "region_names" = Some (StrArr names) ->
  data !! "emb_rff" = Some (Arr2 k rows) ->
  rff_frame data =
    if (length names =? length rows)%nat
    then Ok {| df_index := map CStr names;
               df_columns := range_index k;
               df_values := map (map CNum) rows |}
    else Raise ValueError.
Proof.
  intros Hn Hl. unfold rff_frame, getitem. rewrite Hl, Hn.
  unfold mbind, res_bind, of_array, set_index, axis_labels.
  unfold mbind, res_bind. cbn [df_index df_columns df_values].
  unfold range_index. rewrite !length_map, !length_seq.
  now destruct (length names =? length rows)%nat.
Qed.

Lemma length_zip_rows {A} (f : A -> list R -> list cell) (names : list A)
    (rows : list (list R)) :
  length names = length rows ->
  length (zip_with f names rows) = length names.
Proof. intros H. rewrite length_zip_with. lia. Qed.

Lemma Forall_zip_rows {A} (g : A -> cell) (names : list A) (rows : list (list R))
    (d : nat) :
  Forall (fun row => length row = d) rows ->
  Forall (fun line => length line = S d)
    (zip_with (fun name row => g name :: map CNum row) names rows).
Proof.
  intros Hrows. revert names.
  induction Hrows as [|row rows Hrow _ IH]; intros [|n names]; simpl;
    try constructor.
  - simpl. now rewrite length_map, Hrow.
  - apply IH.
Qed.


Section ExportFacts.
Variable relpath : string -> string -> string.

(** What [do_export] does with an archive whose linear members have
    matching shapes. *)
Lemma do_export_written (a : ExportArgs) (data : npz) (names fns : list string)
    (rows : list (list R)) :
  has_brace (ea_dir a) = false ->
  has_brace (export_out_name relpath a) = false ->
  data !! "region_names" = Some (StrArr names) ->
  data !! "feature_names" = Some (StrArr fns) ->
  data !! "emb_lin" = Some (Arr2 (length fns) rows) ->
  length rows = length names ->
  let base := export_out_name relpath a in
  let lin :=
    (path_join (ea_dir a) (base +:+ "_linear.csv"),
     {| csv_header := CStr "region" :: map CStr fns;
        csv_lines := zip_with (fun name row => CStr name :: map CNum row) names rows |}) in
  do_export relpath a data =
    match data !! "emb_rff" with
    | None => ([lin], None)
    | Some emb =>
        match rff_frame data with
        | Ok df => ([lin; (path_join (ea_dir a) (base +:+ "_rff.csv"), to_csv df "region")], None)
        | Raise e => ([lin], Some e)
        end
    end.
Proof.
  intros Hd Hb Hn Hf Hl Hlen base lin. unfold do_export.
  unfold export_out_pattern. fold base.
  rewrite !format_out_pattern by assumption.
  change (base +:+ "_" +:+ "linear" +:+ ".csv") with (base +:+ "_" +:+ "linear.csv").
  change (base +:+ "_" +:+ "rff" +:+ ".csv") with (base +:+ "_" +:+ "rff.csv").
  rewrite (linear_frame_ok data names fns (length fns) rows Hn Hf Hl).
  rewrite Hlen, !Nat.eqb_refl.
  unfold to_csv. cbn [df_index df_columns df_values].
  rewrite zip_with_cons_cells.
  unfold contains. destruct (data !! "emb_rff") as [emb|] eqn:Hr.
  - rewrite bool_decide_true by eauto.
    now destruct (rff_frame data).
  - rewrite bool_decide_false by (intros [? [=]]). reflexivity.
Qed.

End ExportFacts.

(** What is written is what the frames hold: the first file, if any, is the
    linear frame, the second the Fourier frame. *)
Lemma do_export_files (relpath : string -> string -> string) (a : ExportArgs)
    (data : npz) :
  (forall path csv, (do_export relpath a data).1 !! 0%nat = Some (path, csv) ->
     exists df, linear_frame data = Ok df /\ csv = to_csv df "region") /\
  (forall path csv, (do_export relpath a data).1 !! 1%nat = Some (path, csv) ->
     exists df, rff_frame data = Ok df /\ csv = to_csv df "region").
Proof.
  unfold do_export.
  destruct (format1 _ "linear") as [p|e]; [| split; intros; discriminate].
  destruct (linear_frame data) as [df|e]; [| split; intros; discriminate].
  destruct (contains data "emb_rff").
  - destruct (format1 _ "rff") as [p'|e].
    + destruct (rff_frame data) as [df'|e].
      * split; intros path csv [= _ <-]; eauto.
      * split; intros path csv; [intros [= _ <-]; eauto | discriminate].
    + split; intros path csv; [intros [= _ <-]; eauto | discriminate].
  - split; intros path csv; [intros [= _ <-]; eauto | discriminate].
Qed.

(** C8: the export of an embedding archive.  Whatever CSV the export command
    writes has the region identifiers as its row index, under the index label
    [region], and one line per region; the linear CSV has one column per
    feature, labelled by the archive's feature names in order, and the
    Fourier CSV one column per embedding dimension.  And the files are
    written: when the linear embedding has one row per region name and one
    column per feature name (and the output directory and base name have no
    brace), the linear CSV is the first file written, [DIR/BASE_linear.csv];
    when the Fourier embedding has one row per region name as well, the
    Fourier CSV is the second, [DIR/BASE_rff.csv]. *)
Theorem export_csv_shape (relpath : string -> string -> string)
    (a : ExportArgs) (data : npz) (names fns : list string) (d : nat)
    (rows : list (list R)) :
  data !! "region_names" = Some (StrArr names) ->
  data !! "feature_names" = Some (StrArr fns) ->
  data !! "emb_lin" = Some (Arr2 d rows) ->
  rect (Arr2 d rows) ->
  let base := export_out_name relpath a in
  let written := (do_export relpath a data).1 in
  (forall path csv, written !! 0%nat = Some (path, csv) ->
     csv_header csv = CStr "region" :: map CStr fns /\
     csv_lines csv = zip_with (fun name row => CStr name :: map CNum row) names rows /\
     length (csv_lines csv) = length names /\
     length rows = length names /\
     Forall (fun line => length line = S (length fns)) (csv_lines csv)) /\
  (has_brace (ea_dir a) = false -> has_brace base = false ->
   d = length fns -> length rows = length names ->
   exists csv,
     written !! 0%nat = Some (path_join (ea_dir a) (base +:+ "_linear.csv"), csv)) /\
  (forall path csv k rows', written !! 1%nat = Some (path, csv) ->
     data !! "emb_rff" = Some (Arr2 k rows') ->
     rect (Arr2 k rows') ->
     csv_header csv = CStr "region" :: map CInt (seq 0 k) /\
     csv_lines csv = zip_with (fun name row => CStr name :: map CNum row) names rows' /\
     length (csv_lines csv) = length names /\
     length rows' = length names /\
     Forall (fun line => length line = S k) (csv_lines csv)) /\
  (forall k rows',
     has_brace (ea_dir a) = false -> has_brace base = false ->
     d = length fns -> length rows = length names ->
     data !! "emb_rff" = Some (Arr2 k rows') ->
     length rows' = length names ->
     exists csv,
       written !! 1%nat = Some (path_join (ea_dir a) (base +:+ "_rff.csv"), csv)).
Proof.
  intros Hn Hf Hl Hrect base written.
  destruct (do_export_files relpath a data) as [Hfirst Hsecond].
  fold written in Hfirst, Hsecond.
  split; [| split; [| split]].
  - intros path csv Hw. destruct (Hfirst _ _ Hw) as (df & Hdf & ->).
    rewrite (linear_frame_ok data names fns d rows Hn Hf Hl) in Hdf.
    destruct (length names =? length rows)%nat eqn:Hlen; [| discriminate].
    destruct (length fns =? d)%nat eqn:Hd; [| discriminate].
    apply Nat.eqb_eq in Hlen, Hd. subst d. injection Hdf as <-.
    unfold to_csv. cbn [df_index df_columns df_values csv_header csv_lines].
    rewrite zip_with_cons_cells.
    split; [reflexivity |]. split; [reflexivity |].
    split; [now apply length_zip_rows |]. split; [now symmetry |].
    now apply Forall_zip_rows.
  - intros Hd Hb -> Hlen. unfold written.
    rewrite (do_export_written relpath a data names fns rows Hd Hb Hn Hf Hl Hlen).
    fold base. destruct (data !! "emb_rff"); [destruct (rff_frame data) |]; eauto.
  - intros path csv k rows' Hw Hr Hrect'.
    destruct (Hsecond _ _ Hw) as (df & Hdf & ->).
    rewrite (rff_frame_ok data names k rows' Hn Hr) in Hdf.
    destruct (length names =? length rows')%nat eqn:Hlen'; [| discriminate].
    apply Nat.eqb_eq in Hlen'. injection Hdf as <-.
    unfold to_csv. cbn [df_index df_columns df_values csv_header csv_lines].
    rewrite zip_with_cons_cells.
    split; [reflexivity |]. split; [reflexivity |].
    split; [now apply length_zip_rows |]. split; [now symmetry |].
    now apply Forall_zip_rows.
  - intros k rows' Hd Hb -> Hlen Hr Hlen'. unfold written.
    rewrite (do_export_written relpath a data names fns rows Hd Hb Hn Hf Hl Hlen).
    fold base. rewrite Hr.
    rewrite (rff_frame_ok data names k rows' Hn Hr), Hlen', Nat.eqb_refl. eauto.
Qed.


(** ** Facts about the sort phase *)

Import Pipeline.

Lemma add_sums_assoc (a b c : gmap string R) :
  add_sums a (add_sums b c) = add_sums (add_sums a b) c.
Proof.
  apply map_eq. intros i. unfold add_sums. rewrite !lookup_union_with.
  destruct (a !! i), (b !! i), (c !! i); simpl; try reflexivity.
  f_equal. lra.
Qed.

Lemma add_sums_empty_l (a : gmap string R) : add_sums ∅ a = a.
Proof.
  apply map_eq. intros i. unfold add_sums.
  rewrite lookup_union_with, lookup_empty. now destruct (a !! i).
Qed.

Lemma add_sums_empty_r (a : gmap string R) : add_sums a ∅ = a.
Proof.
  apply map_eq. intros i. unfold add_sums.
  rewrite lookup_union_with, lookup_empty. now destruct (a !! i).
Qed.

Lemma stats_merge_assoc (a b c : StatsState) :
  stats_merge a (stats_merge b c) = stats_merge (stats_merge a b) c.
Proof.
  unfold stats_merge. simpl. f_equal.
  - apply map_eq. intros i. rewrite !lookup_union_with.
    destruct (ss_vocab a !! i), (ss_vocab b !! i), (ss_vocab c !! i);
      simpl; try reflexivity.
    f_equal. apply (assoc_L (∪)).
  - lra.
  - apply add_sums_assoc.
  - apply add_sums_assoc.
Qed.

Lemma stats_merge_empty_l (a : StatsState) : stats_merge stats_empty a = a.
Proof.
  destruct a as [v w x xx]. unfold stats_merge. simpl. f_equal.
  - apply map_eq. intros i. rewrite lookup_union_with, lookup_empty.
    now destruct (v !! i).
  - lra.
  - apply add_sums_empty_l.
  - apply add_sums_empty_l.
Qed.

Lemma stats_merge_empty_r (a : StatsState) : stats_merge a stats_empty = a.
Proof.
  destruct a as [v w x xx]. unfold stats_merge. simpl. f_equal.
  - apply map_eq. intros i. rewrite lookup_union_with, lookup_empty.
    now destruct (v !! i).
  - lra.
  - apply add_sums_empty_r.
  - apply add_sums_empty_r.
Qed.

Lemma chunk_stats_app (a b : list Row) :
  chunk_stats (a ++ b) = stats_merge (chunk_stats a) (chunk_stats b).
Proof.
  induction a as [|r a IH]; simpl.
  - now rewrite stats_merge_empty_l.
  - fold (chunk_stats (a ++ b)). fold (chunk_stats a).
    now rewrite IH, stats_merge_assoc.
Qed.

(** Feeding chunks one by one adds up to the sums of all their rows. *)
Lemma foldl_accumulate (st : StatsState) (chunks : list (list Row)) :
  foldl accumulate st chunks = stats_merge st (chunk_stats (concat chunks)).
Proof.
  revert st. induction chunks as [|c cs IH]; intros st; simpl.
  - now rewrite stats_merge_empty_r.
  - rewrite IH. unfold accumulate.
    now rewrite chunk_stats_app, stats_merge_assoc.
Qed.



(** *** The reader's chunks *)

Lemma concat_chunk_go {A} (n room : nat) (cur l : list A) :
  concat (chunk_go n room cur l) = rev cur ++ l.
Proof.
  revert room cur. induction l as [|x l IH]; intros room cur.
  - simpl. destruct cur as [|y cur]; simpl; now rewrite ?app_nil_r.
  - destruct room as [|[|room]]; simpl chunk_go.
    + simpl concat. rewrite IH. simpl. now rewrite <- app_assoc.
    + simpl concat. rewrite IH. simpl. now rewrite <- app_assoc.
    + rewrite IH. simpl. now rewrite <- app_assoc.
Qed.

(** Whatever the chunk size, the chunks are the rows of the source, in
    order. *)
Lemma concat_read_chunks {A} (chunksize : Z) (l : list A) (chunks : list (list A)) :
  read_chunks chunksize l = Ok chunks -> concat chunks = l.
Proof.
  unfold read_chunks. destruct (chunksize <? 1)%Z; [discriminate |].
  intros [= <-]. apply concat_chunk_go.
Qed.

Lemma read_chunks_ok {A} (chunksize : Z) (l : list A) :
  (1 <= chunksize)%Z -> exists chunks, read_chunks chunksize l = Ok chunks.
Proof.
  intros H. unfold read_chunks.
  destruct (chunksize <? 1)%Z eqn:E; [lia | eauto].
Qed.

(** *** The partitioner *)

Lemma sum_weights_app (a b : list Row) :
  sum_weights (a ++ b) = (sum_weights a + sum_weights b)%R.
Proof.
  induction a as [|r a IH]; simpl.
  - lra.
  - fold (sum_weights (a ++ b)). fold (sum_weights a). rewrite IH. lra.
Qed.

Lemma region_rows_app (r : string) (a b : list Row) :
  region_rows r (a ++ b) = region_rows r a ++ region_rows r b.
Proof. apply List.filter_app. Qed.

Lemma group_by_region_lookup (rows : list Row) (r : string) :
  group_by_region rows !! r =
    match region_rows r rows with [] => None | l => Some l end.
Proof.
  induction rows as [|x rows IH]; [reflexivity |].
  simpl group_by_region. fold (group_by_region rows).
  rewrite lookup_partial_alter. unfold region_rows. simpl List.filter.
  fold (region_rows r rows).
  destruct (String.eqb_spec (region x) r) as [-> | Hne].
  - rewrite decide_True by reflexivity. rewrite IH.
    now destruct (region_rows r rows).
  - rewrite decide_False by exact Hne. exact IH.
Qed.

(** The store the partitioner makes for region [r] out of a table holds the
    table's rows of that region and the sum of their weights. *)
Lemma partition_lookup (rows : list Row) (r : string) :
  partition rows !! r = store_of (region_rows r rows).
Proof.
  unfold partition. rewrite lookup_fmap, group_by_region_lookup.
  now destruct (region_rows r rows).
Qed.

Lemma partition_app (a b : list Row) :
  partition (a ++ b) =
    union_with (fun s t => Some (store_append s t)) (partition a) (partition b).
Proof.
  apply map_eq. intros r.
  rewrite lookup_union_with, !partition_lookup, region_rows_app.
  destruct (region_rows r a) as [|x la], (region_rows r b) as [|y lb];
    simpl; try reflexivity.
  - now rewrite app_nil_r.
  - unfold store_append. simpl. do 2 f_equal.
    fold (sum_weights (la ++ y :: lb)). rewrite sum_weights_app. simpl.
    fold (sum_weights la). fold (sum_weights lb). lra.
Qed.

Lemma union_stores_assoc (a b c : gmap string RegionStore) :
  union_with (fun s t => Some (store_append s t)) a
    (union_with (fun s t => Some (store_append s t)) b c) =
  union_with (fun s t => Some (store_append s t))
    (union_with (fun s t => Some (store_append s t)) a b) c.
Proof.
  apply map_eq. intros i. rewrite !lookup_union_with.
  destruct (a !! i), (b !! i), (c !! i); simpl; try reflexivity.
  unfold store_append. simpl. do 2 f_equal.
  - apply app_assoc.
  - lra.
Qed.

Lemma foldl_partition_append (stores : gmap string RegionStore)
    (chunks : list (list Row)) :
  foldl partition_append stores chunks =
    union_with (fun s t => Some (store_append s t)) stores (partition (concat chunks)).
Proof.
  revert stores. induction chunks as [|c cs IH]; intros stores; simpl.
  - apply map_eq. intros i. rewrite lookup_union_with.
    change (partition []) with (∅ : gmap string RegionStore).
    rewrite lookup_empty. now destruct (stores !! i).
  - rewrite IH. unfold partition_append.
    now rewrite partition_app, union_stores_assoc.
Qed.

Lemma foldl_partition_append_empty (chunks : list (list Row)) :
  foldl partition_append ∅ chunks = partition (concat chunks).
Proof.
  rewrite foldl_partition_append. apply map_eq. intros i.
  rewrite lookup_union_with, lookup_empty.
  now destruct (partition (concat chunks) !! i).
Qed.

(** Every store of a table holds the sum of the weights of its rows. *)
Lemma partition_total_wt (rows : list Row) (r : string) (st : RegionStore) :
  partition rows !! r = Some st ->
  rs_rows st = region_rows r rows /\ rs_total_wt st = sum_weights (rs_rows st).
Proof.
  rewrite partition_lookup. destruct (region_rows r rows) as [|y l]; [discriminate |].
  simpl. intros [= <-]. now split.
Qed.


(** *** The streaming pass *)

Lemma transform_app (inc : gset string) (v adj : bool) (a b : list Row) :
  transform inc v adj (a ++ b) = transform inc v adj a ++ transform inc v adj b.
Proof.
  unfold transform. destruct v, adj;
    rewrite ?List.filter_app, ?map_app; reflexivity.
Qed.

Lemma concat_map_transform (inc : gset string) (v adj : bool) (chunks : list (list Row)) :
  concat (map (transform inc v adj) chunks) = transform inc v adj (concat chunks).
Proof.
  induction chunks as [|c cs IH]; simpl.
  - now destruct v, adj.
  - now rewrite IH, transform_app.
Qed.

Lemma foldl_sort_step (inc : gset string) (call : Cli.SortCall)
    (st : StatsState) (stores : gmap string RegionStore) (chunks : list (list Row)) :
  let T := transform inc (Cli.sc_voters_only call) (Cli.sc_adj_inc call) in
  foldl (sort_step inc call) (st, stores) chunks =
    (foldl accumulate st (map T chunks),
     if Cli.sc_stats_only call then stores
     else foldl partition_append stores (map T chunks)).
Proof.
  intros T. revert st stores.
  induction chunks as [|c cs IH]; intros st stores; simpl.
  - now destruct (Cli.sc_stats_only call).
  - unfold sort_step at 2. simpl. rewrite IH.
    now destruct (Cli.sc_stats_only call).
Qed.

(** The streaming pass leaves the statistics and the stores of one and the
    same table: the transformed rows of the whole source. *)
Lemma sort_chunks_spec (inc : gset string) (call : Cli.SortCall)
    (chunks : list (list Row)) :
  let kept := transform inc (Cli.sc_voters_only call) (Cli.sc_adj_inc call)
                (concat chunks) in
  sort_chunks inc call chunks =
    (chunk_stats kept, if Cli.sc_stats_only call then ∅ else partition kept).
Proof.
  intros kept. unfold sort_chunks. rewrite foldl_sort_step.
  rewrite foldl_accumulate, stats_merge_empty_l, foldl_partition_append_empty.
  now rewrite concat_map_transform.
Qed.

Lemma eligible_spec (r : Row) :
  eligible r = true <-> citizen r = true /\ (18 <= age r)%Z.
Proof.
  unfold eligible. rewrite andb_true_iff, Z.leb_le. reflexivity.
Qed.

Lemma adjust_income_conts (inc : gset string) (raw : Row) (f : string) :
  conts (adjust_income inc raw) !! f =
    (fun x => if bool_decide (f ∈ inc) then (x * adjinc raw)%R else x)
      <$> conts raw !! f.
Proof.
  unfold adjust_income. simpl. rewrite map_lookup_imap.
  now destruct (conts raw !! f).
Qed.


(** ** Facts about the embedding engine *)

Section EmbedFacts.
Variable n_feats : nat.
Variable encode_row : Row -> res (list R).
Variable freqs : option (list (list R)).

Lemma filter_none (subset : Row -> bool) (rows : list Row) :
  Forall (fun r => subset r = false) rows -> List.filter subset rows = [].
Proof.
  induction 1 as [|r rows Hr _ IH]; simpl; [reflexivity |]. now rewrite Hr.
Qed.

Lemma embed_chunks_none (subset : Row -> bool) (acc : EmbAcc)
    (chunks : list (list Row)) :
  Forall (fun r => subset r = false) (concat chunks) ->
  foldM_res (embed_chunk encode_row freqs subset) acc chunks = Ok acc.
Proof.
  induction chunks as [|c cs IH]; [reflexivity |].
  cbn [foldM_res concat]. intros H. apply Forall_app in H as [Hc Hcs].
  replace (embed_chunk encode_row freqs subset acc c) with (Ok acc)
    by (unfold embed_chunk; now rewrite (filter_none _ _ Hc)).
  unfold mbind, res_bind. now apply IH.
Qed.

Lemma finish_acc_empty :
  finish n_feats freqs (acc_empty n_feats freqs) =
    {| re_lin := vzero n_feats;
       re_rff := (fun F => vzero (2 * length F)) <$> freqs;
       re_weight := 0%R |}.
Proof.
  unfold finish, acc_empty. simpl.
  destruct (Req_dec_T 0 0) as [_|E]; [reflexivity | now destruct E].
Qed.

End EmbedFacts.

(** C7: a subset predicate that matches none of a region's rows gives that
    region the all-zero embedding (linear and, when frequencies are supplied,
    Fourier) with total weight 0; the computation returns, it does not
    raise, whatever the encoder would do with the region's rows. *)
Theorem empty_subset_embedding (n_feats : nat) (encode_row : Row -> res (list R))
    (freqs : option (list (list R))) (subset : Row -> bool)
    (chunksize : Z) (rows : list Row) :
  (1 <= chunksize)%Z ->
  Forall (fun r => subset r = false) rows ->
  embed_region n_feats encode_row freqs subset chunksize rows =
    Ok {| re_lin := replicate n_feats 0%R;
          re_rff := (fun F => replicate (2 * length F) 0%R) <$> freqs;
          re_weight := 0%R |}.
Proof.
  intros Hc Hnone. unfold embed_region.
  destruct (read_chunks_ok chunksize rows Hc) as [chunks Hchunks].
  rewrite Hchunks. unfold mbind, res_bind.
  rewrite embed_chunks_none
    by (now rewrite (concat_read_chunks _ _ _ Hchunks)).
  now rewrite finish_acc_empty.
Qed.


Lemma transform_region (inc : gset string) (v adj : bool) (rows : list Row)
    (row : Row) :
  In row (transform inc v adj rows) ->
  exists raw, In raw rows /\ region row = region raw /\
    (adj = true -> row = adjust_income inc raw) /\
    (v = true -> eligible raw = true).
Proof.
  unfold transform. intros H.
  assert (Hkept : forall x, In x (if v then List.filter eligible rows else rows) ->
                            In x rows /\ (v = true -> eligible x = true)).
  { intros x Hx. destruct v.
    - apply List.filter_In in Hx. tauto.
    - split; [exact Hx | discriminate]. }
  destruct adj.
  - apply List.in_map_iff in H as (raw & <- & Hraw).
    apply Hkept in Hraw as [Hin Hel].
    exists raw. repeat split; auto.
  - apply Hkept in H as [Hin Hel].
    exists row. repeat split; auto. discriminate.
Qed.

Lemma partition_store_rows (rows : list Row) (r : string) (st : RegionStore)
    (row : Row) :
  partition rows !! r = Some st ->
  In row (rs_rows st) -> In row rows /\ region row = r.
Proof.
  intros Hst Hrow. apply partition_total_wt in Hst as [Hrows _].
  rewrite Hrows in Hrow. unfold region_rows in Hrow.
  apply List.filter_In in Hrow as [Hin Hr].
  split; [exact Hin | now apply String.eqb_eq].
Qed.



(** ** The claims on the sort phase *)

(** C5: voters_only is on unless [--all-people] is given.  With it on, the
    sort phase keeps exactly the rows of citizens aged at least 18, and the
    statistics and the region stores are both computed from these kept
    rows. *)
Theorem voters_only_filter (income_fields : gset string) (a : SortArgs)
    (chunks : list (list Row)) :
  sa_voters_only a = true ->
  let kept := List.filter eligible (concat chunks) in
  let stored := map (adjust_income income_fields) kept in
  parse_voters_only [] = Ok true /\
  sc_voters_only (sort_call a) = true /\
  (forall r, In r kept <->
             In r (concat chunks) /\ citizen r = true /\ (18 <= age r)%Z) /\
  sort_chunks income_fields (sort_call a) chunks =
    (chunk_stats stored, if sa_stats_only a then ∅ else partition stored).
Proof.
  intros Hv kept stored.
  split; [reflexivity |]. split; [exact Hv |]. split.
  - intros r. unfold kept. rewrite List.filter_In, eligible_spec. reflexivity.
  - rewrite sort_chunks_spec.
    cbn [sort_call sc_stats_only sc_voters_only sc_adj_inc].
    unfold transform. now rewrite Hv.
Qed.

(** C6: the sort command always asks for the income adjustment, and every
    row in a region store is the adjusted form of a row of the source: its
    reported income fields are multiplied by that row's adjustment factor,
    its other fields are unchanged. *)
Theorem stored_rows_income_adjusted (income_fields : gset string) (a : SortArgs)
    (chunks : list (list Row)) (r : string) (st : RegionStore) (row : Row) :
  (sort_chunks income_fields (sort_call a) chunks).2 !! r = Some st ->
  In row (rs_rows st) ->
  sc_adj_inc (sort_call a) = true /\
  exists raw,
    In raw (concat chunks) /\
    row = adjust_income income_fields raw /\
    forall f,
      conts row !! f =
        (fun x => if bool_decide (f ∈ income_fields)
                  then (x * adjinc raw)%R else x) <$> conts raw !! f.
Proof.
  intros Hst Hrow. split; [reflexivity |].
  rewrite sort_chunks_spec in Hst.
  cbn [sort_call sc_stats_only sc_voters_only sc_adj_inc snd] in Hst.
  destruct (sa_stats_only a); [now rewrite lookup_empty in Hst |].
  destruct (partition_store_rows _ _ _ _ Hst Hrow) as [Hin _].
  apply transform_region in Hin as (raw & Hraw & _ & Hadj & _).
  exists raw. split; [exact Hraw |]. split; [now apply Hadj |].
  intros f. rewrite (Hadj eq_refl). apply adjust_income_conts.
Qed.

Import PyStr RegionFiles Np Pd Cli Pipeline Examples.

Lemma skip_rbf_archive_witness :
  fa_skip_rbf linear_only_args = true /\
  example_featurize linear_only_args =
    Ok ((written_archive linear_only_args).1, (written_archive linear_only_args).2) /\
  dom (written_archive linear_only_args).2 =
    ({[ "emb_lin"; "region_weights"; "feature_names";
        "region_names"; "subset_queries" ]} : gset string) /\
  (written_archive linear_only_args).2 !! "emb_rff" = None.
Proof.
  assert (Hrun : do_featurize example_load_stats sorted_entries example_get_embeddings
                   linear_only_args
                 = Ok ((written_archive linear_only_args).1,
                       (written_archive linear_only_args).2))
    by (vm_compute; reflexivity).
  pose proof (skip_rbf_archive example_load_stats sorted_entries
                example_get_embeddings linear_only_args _ _ eq_refl Hrun)
    as (Hdom & Hrff & _).
  split; [reflexivity |]. split; [exact Hrun |].
  split; [exact Hdom | exact Hrff].
Defined.

Lemma embedding_archive_contents_witness :
  example_featurize featurize_args =
    Ok ((written_archive featurize_args).1, (written_archive featurize_args).2) /\
  is_Some ((written_archive featurize_args).2 !! "emb_lin") /\
  (is_Some ((written_archive featurize_args).2 !! "emb_rff")
   <-> fa_skip_rbf featurize_args = false).
Proof.
  assert (Hrun : do_featurize example_load_stats sorted_entries example_get_embeddings
                   featurize_args
                 = Ok ((written_archive featurize_args).1,
                       (written_archive featurize_args).2))
    by (vm_compute; reflexivity).
  pose proof (embedding_archive_contents example_load_stats sorted_entries
                example_get_embeddings featurize_args _ _ Hrun)
    as (_ & Hlin & _ & _ & _ & Hrff & _).
  split; [exact Hrun |]. split; [exact Hlin | exact Hrff].
Defined.

Lemma empty_subset_embedding_witness :
  (1 <= 8192)%Z /\
  Forall (fun r : Row => (fun _ : Row => false) r = false) [adult_a; child_a] /\
  embed_region 1 unit_encoder None (fun _ => false) 8192 [adult_a; child_a]
    = Ok {| re_lin := [0%R]; re_rff := None; re_weight := 0%R |}.
Proof.
  assert (H1 : (1 <= 8192)%Z) by lia.
  assert (H2 : Forall (fun r : Row => (fun _ : Row => false) r = false)
                 [adult_a; child_a]) by (repeat constructor).
  split; [exact H1 |]. split; [exact H2 |].
  exact (empty_subset_embedding 1 unit_encoder None (fun _ => false) 8192
           [adult_a; child_a] H1 H2).
Defined.

Lemma voters_only_filter_witness :
  sa_voters_only sort_args = true /\
  sort_chunks income (sort_call sort_args) source_chunks =
    (chunk_stats (map (adjust_income income) [adult_a; adult_b]),
     partition (map (adjust_income income) [adult_a; adult_b])).
Proof.
  split; [reflexivity |].
  apply (voters_only_filter income sort_args source_chunks eq_refl).
Defined.

Lemma stored_rows_income_adjusted_witness :
  sorted_stores !! "A" =
    Some {| rs_rows := [adjust_income income adult_a];
            rs_total_wt := sum_weights [adjust_income income adult_a] |} /\
  In (adjust_income income adult_a) [adjust_income income adult_a] /\
  exists raw,
    In raw (concat source_chunks) /\
    adjust_income income adult_a = adjust_income income raw.
Proof.
  assert (H1 : (sort_chunks income (sort_call sort_args) source_chunks).2 !! "A" =
    Some {| rs_rows := [adjust_income income adult_a];
            rs_total_wt := sum_weights [adjust_income income adult_a] |})
    by (vm_compute; reflexivity).
  assert (H2 : In (adjust_income income adult_a)
                 (rs_rows {| rs_rows := [adjust_income income adult_a];
                             rs_total_wt := sum_weights [adjust_income income adult_a] |}))
    by (left; reflexivity).
  destruct (stored_rows_income_adjusted income sort_args source_chunks "A" _ _ H1 H2)
    as (_ & raw & Hraw & Heq & _).
  split; [exact H1 |]. split; [exact H2 |].
  exists raw. split; [exact Hraw | exact Heq].
Defined.


Lemma export_csv_shape_witness :
  MoreExamples.full_archive !! "region_names" = Some (StrArr ["A"; "B"]) /\
  MoreExamples.full_archive !! "feature_names" = Some (StrArr ["SEX_1"; "PINCP"]) /\
  MoreExamples.full_archive !! "emb_lin" = Some (Arr2 2 [[1%R; 0%R]; [0%R; 1%R]]) /\
  rect (Arr2 2 [[1%R; 0%R]; [0%R; 1%R]]) /\
  (exists csv,
     (do_export no_relpath export_args MoreExamples.full_archive).1 !! 0%nat
       = Some ("out/embeddings_linear.csv", csv) /\
     csv_header csv = [CStr "region"; CStr "SEX_1"; CStr "PINCP"] /\
     csv_lines csv = [[CStr "A"; CNum 1%R; CNum 0%R]; [CStr "B"; CNum 0%R; CNum 1%R]]) /\
  (exists csv,
     (do_export no_relpath export_args MoreExamples.full_archive).1 !! 1%nat
       = Some ("out/embeddings_rff.csv", csv) /\
     csv_header csv = [CStr "region"; CInt 0] /\
     csv_lines csv = [[CStr "A"; CNum 1%R]; [CStr "B"; CNum 0%R]]).
Proof.
  assert (H1 : MoreExamples.full_archive !! "region_names" = Some (StrArr ["A"; "B"]))
    by reflexivity.
  assert (H2 : MoreExamples.full_archive !! "feature_names"
               = Some (StrArr ["SEX_1"; "PINCP"])) by reflexivity.
  assert (H3 : MoreExamples.full_archive !! "emb_lin"
               = Some (Arr2 2 [[1%R; 0%R]; [0%R; 1%R]])) by reflexivity.
  assert (H4 : rect (Arr2 2 [[1%R; 0%R]; [0%R; 1%R]])) by (repeat constructor).
  assert (H5 : MoreExamples.full_archive !! "emb_rff" = Some (Arr2 1 [[1%R]; [0%R]]))
    by reflexivity.
  assert (H6 : rect (Arr2 1 [[1%R]; [0%R]])) by (repeat constructor).
  destruct (export_csv_shape no_relpath export_args MoreExamples.full_archive
              _ _ _ _ H1 H2 H3 H4) as (Hlin & Hwl & Hrff & Hwr).
  destruct (Hwl eq_refl eq_refl eq_refl eq_refl) as [csv Hcsv].
  destruct (Hwr 1%nat [[1%R]; [0%R]] eq_refl eq_refl eq_refl eq_refl H5 eq_refl)
    as [csv' Hcsv'].
  repeat (split; [assumption |]). split.
  - exists csv. destruct (Hlin _ _ Hcsv) as (Hh & Hl & _).
    split; [exact Hcsv |]. split; [exact Hh | exact Hl].
  - exists csv'. destruct (Hrff _ _ 1%nat [[1%R]; [0%R]] Hcsv' H5 H6) as (Hh & Hl & _).
    split; [exact Hcsv' |]. split; [exact Hh | exact Hl].
Defined.





(** * Further properties of the driver *)

(** ** Prefixes, suffixes and slices *)

Import PyStr RegionFiles.

Lemma startswith_inv (s p : string) :
  startswith s p = true -> exists rest, s = p +:+ rest.
Proof.
  revert s. induction p as [|c p IH]; intros s H.
  - now exists s.
  - destruct s as [|d s]; [discriminate |].
    cbn -[Ascii.eqb] in H. apply andb_true_iff in H as [Hc Hp].
    apply Ascii.eqb_eq in Hc. subst d.
    destruct (IH s Hp) as [rest ->]. now exists rest.
Qed.

Lemma substring_skip_add (a b : string) (k m : nat) :
  substring (String.length a + k) m (a +:+ b) = substring k m b.
Proof. induction a as [|c a IH]; [reflexivity | exact IH]. Qed.

Lemma substring_split (s : string) (k : nat) :
  (k <= String.length s)%nat ->
  s = substring 0 k s +:+ substring k (String.length s - k) s.
Proof.
  revert k. induction s as [|c s IH]; intros k Hk.
  - destruct k; [reflexivity | simpl in Hk; lia].
  - destruct k as [|k].
    + cbn [substring String.length Nat.sub]. change ("" +:+ ?x) with x.
      now rewrite substring_all.
    + simpl in Hk. cbn [substring String.length Nat.sub].
      change (String c ?x +:+ ?y) with (String c (x +:+ y)).
      f_equal. apply IH. lia.
Qed.

Lemma endswith_inv (s p : string) :
  endswith s p = true -> exists pre, s = pre +:+ p.
Proof.
  unfold endswith. intros H. apply andb_true_iff in H as [Hle Heq].
  apply Nat.leb_le in Hle. apply String.eqb_eq in Heq.
  exists (substring 0 (String.length s - String.length p) s).
  pose proof (substring_split s (String.length s - String.length p)) as H.
  replace (String.length s - (String.length s - String.length p))%nat
    with (String.length p) in H by lia.
  rewrite Heq in H. apply H. lia.
Qed.

(** [s[:-len(p)]] strips a suffix [p] that is there. *)
Lemma slice_strip_suffix (pre p : string) :
  (0 < String.length p)%nat ->
  slice (pre +:+ p) 0 (- Z.of_nat (String.length p)) = pre.
Proof.
  intros Hp. unfold slice, slice_bound. rewrite length_append.
  destruct (- Z.of_nat (String.length p) <? 0)%Z eqn:E; [| lia].
  change (0 <? 0)%Z with false. cbv iota.
  rewrite Z.min_l by lia. rewrite Z.max_r by lia.
  change (Z.to_nat 0) with 0%nat.
  replace (Z.to_nat _) with (String.length pre) by lia.
  apply substring_take.
Qed.

Lemma has_sep_substring (s : string) (n m : nat) :
  has_sep s = false -> has_sep (substring n m s) = false.
Proof.
  revert n m. induction s as [|c s IH]; intros n m H.
  - now destruct n, m.
  - simpl in H. apply orb_false_iff in H as [Hc Hs].
    destruct n as [|n].
    + destruct m as [|m]; [reflexivity |].
      cbn [substring has_sep]. now rewrite Hc, IH.
    + cbn [substring]. now apply IH.
Qed.

Lemma has_sep_basename (p : string) : has_sep (basename p) = false.
Proof.
  induction p as [|c p IH]; [reflexivity |].
  cbn [basename]. destruct (has_sep p) eqn:Hp; [exact IH |].
  destruct (Ascii.eqb c "/") eqn:Hc; [exact Hp |].
  cbn [has_sep]. now rewrite Hc, Hp.
Qed.

(** A name that starts with [feats_] and ends with [.h5] is the store file
    name of some region: the prefix and the suffix cannot overlap. *)
Lemma store_file_name_inv (fn : string) :
  startswith fn "feats_" = true ->
  endswith fn ".h5" = true ->
  exists r, fn = store_file_name r.
Proof.
  intros Hs He. apply startswith_inv in Hs as [rest ->].
  assert (Hrest : endswith rest ".h5" = true).
  { unfold endswith in *. rewrite length_append in He.
    apply andb_true_iff in He as [_ He].
    destruct rest as [|c1 [|c2 [|c3 rest]]];
      [vm_compute in He; discriminate He .. |].
    set (r := String c1 (String c2 (String c3 rest))) in *.
    assert (Hlen : (3 <= String.length r)%nat) by (simpl; lia).
    replace (String.length "feats_" + String.length r - String.length ".h5")%nat
      with (String.length "feats_" + (String.length r - 3))%nat in He
      by (simpl String.length; lia).
    rewrite substring_skip_add in He.
    apply andb_true_iff. split; [apply Nat.leb_le; simpl; lia | exact He]. }
  apply endswith_inv in Hrest as [r ->]. now exists r.
Qed.


(** ** Which files are region stores *)

Import Np Pd Cli.

Lemma glob_feats_guard (fn : string) :
  glob_feats fn = startswith fn "feats_" && endswith fn ".h5".
Proof.
  destruct (startswith fn "feats_") eqn:Hs;
    [| unfold glob_feats; now rewrite Hs].
  destruct (endswith fn ".h5") eqn:He;
    [| unfold glob_feats; now rewrite Hs, He].
  destruct (store_file_name_inv fn Hs He) as [r ->].
  apply glob_feats_store_file_name.
Qed.

(** X1: the featurize and the weight-counts command select the same entries
    of a directory and give each the same region label.  For a directory
    name that [glob] takes literally, every file the featurize glob returns
    is an entry the weight-counts guard lets through, filed under the name
    featurize derives from the file's path; every entry weight-counts files
    is returned by the glob; so the region names featurize saves are the
    regions weight-counts files, store by store. *)
Theorem commands_agree_on_stores (dir : string) (entries : list string) :
  has_magic dir = false ->
  Forall (fun fn => has_sep fn = false) entries ->
  (forall f, In f (glob_stores dir entries) ->
     In (basename f) entries /\
     weight_counts_region (basename f) = Some (featurize_region_name f)) /\
  (forall fn r, In fn entries -> weight_counts_region fn = Some r ->
     exists f, In f (glob_stores dir entries) /\
               basename f = fn /\ featurize_region_name f = r) /\
  map featurize_region_name (glob_stores dir entries)
    ≡ₚ omap weight_counts_region entries.
Proof.
  intros _ Hsep.
  assert (Hone : forall fn, has_sep fn = false ->
            weight_counts_region fn =
              if glob_feats fn
              then Some (featurize_region_name (path_join (glob_dirname dir) fn))
              else None).
  { intros fn Hfn. rewrite glob_feats_guard. unfold weight_counts_region.
    destruct (startswith fn "feats_" && endswith fn ".h5"); [| reflexivity].
    unfold featurize_region_name. now rewrite basename_path_join. }
  assert (Hin : forall fn, In fn entries -> has_sep fn = false).
  { now apply List.Forall_forall. }
  split; [| split].
  - intros f Hf. unfold glob_stores in Hf.
    apply List.in_map_iff in Hf as (fn & <- & Hfn).
    apply List.filter_In in Hfn as [Hfn Hg].
    rewrite basename_path_join by now apply Hin.
    split; [exact Hfn |]. now rewrite (Hone fn (Hin fn Hfn)), Hg.
  - intros fn r Hfn Hr. rewrite (Hone fn (Hin fn Hfn)) in Hr.
    destruct (glob_feats fn) eqn:Hg; [| discriminate]. injection Hr as <-.
    exists (path_join (glob_dirname dir) fn).
    split; [| split; [now apply basename_path_join, Hin | reflexivity]].
    unfold glob_stores. apply List.in_map, List.filter_In. now split.
  - assert (Heq : map featurize_region_name (glob_stores dir entries)
                  = omap weight_counts_region entries); [| now rewrite Heq].
    unfold glob_stores. clear Hin. induction Hsep as [|fn entries Hfn _ IH]; [reflexivity |].
    cbn [List.filter omap list_omap]. rewrite (Hone fn Hfn).
    destruct (glob_feats fn); [| exact IH].
    cbn [map]. now rewrite IH.
Qed.

Lemma commands_agree_on_stores_witness :
  has_magic "out" = false /\
  Forall (fun fn => has_sep fn = false) ["stats.h5"; "feats_A.h5"; "feats_B.h5"] /\
  glob_stores "out" ["stats.h5"; "feats_A.h5"; "feats_B.h5"]
    = ["out/feats_A.h5"; "out/feats_B.h5"] /\
  map featurize_region_name (glob_stores "out" ["stats.h5"; "feats_A.h5"; "feats_B.h5"])
    = ["A"; "B"] /\
  omap weight_counts_region ["stats.h5"; "feats_A.h5"; "feats_B.h5"] = ["A"; "B"] /\
  map featurize_region_name (glob_stores "out" ["stats.h5"; "feats_A.h5"; "feats_B.h5"])
    ≡ₚ omap weight_counts_region ["stats.h5"; "feats_A.h5"; "feats_B.h5"].
Proof.
  assert (H1 : has_magic "out" = false) by reflexivity.
  assert (H2 : Forall (fun fn => has_sep fn = false)
                 ["stats.h5"; "feats_A.h5"; "feats_B.h5"])
    by (repeat constructor).
  destruct (commands_agree_on_stores "out" _ H1 H2) as (_ & _ & Hperm).
  split; [exact H1 |]. split; [exact H2 |]. split; [reflexivity |].
  split; [reflexivity |]. split; [reflexivity | exact Hperm].
Defined.

(** A file the glob selects is the store file of the region it is labelled
    with. *)
Lemma store_file_name_region (fn : string) :
  glob_feats fn = true -> store_file_name (slice fn 6 (-3)) = fn.
Proof.
  rewrite glob_feats_guard. intros H. apply andb_true_iff in H as [Hs He].
  destruct (store_file_name_inv fn Hs He) as [r ->].
  now rewrite slice_store_file_name.
Qed.

Lemma weight_counts_region_inv (fn r : string) :
  weight_counts_region fn = Some r -> fn = store_file_name r.
Proof.
  unfold weight_counts_region.
  destruct (startswith fn "feats_" && endswith fn ".h5") eqn:H; [| discriminate].
  intros [= <-]. symmetry. apply store_file_name_region.
  now rewrite glob_feats_guard.
Qed.

(** X2: for a directory name that [glob] takes literally, distinct entries
    of the directory get distinct region names: the [region_names] of an
    archive never repeat a label. *)
Theorem region_names_distinct (dir : string) (entries : list string) :
  has_magic dir = false ->
  List.NoDup entries ->
  Forall (fun fn => has_sep fn = false) entries ->
  List.NoDup (map featurize_region_name (glob_stores dir entries)).
Proof.
  intros _ Hnd Hsep. unfold glob_stores. rewrite map_map.
  induction entries as [|fn entries IH]; [constructor |].
  apply List.NoDup_cons_iff in Hnd as [Hnot Hnd].
  apply Forall_cons in Hsep as [Hfn Hsep].
  cbn [List.filter]. destruct (glob_feats fn) eqn:Hg; [| now apply IH].
  cbn [map]. constructor; [| now apply IH].
  intros Hin. apply List.in_map_iff in Hin as (fn' & Heq & Hin').
  apply List.filter_In in Hin' as [Hin' Hg'].
  assert (Hfn' : has_sep fn' = false).
  { rewrite List.Forall_forall in Hsep. now apply Hsep. }
  unfold featurize_region_name in Heq.
  rewrite !basename_path_join in Heq by assumption.
  apply Hnot. rewrite <- (store_file_name_region fn Hg).
  rewrite <- Heq. now rewrite store_file_name_region.
Qed.

Lemma region_names_distinct_witness :
  has_magic "out" = false /\
  List.NoDup ["stats.h5"; "feats_A.h5"; "feats_B.h5"] /\
  Forall (fun fn => has_sep fn = false) ["stats.h5"; "feats_A.h5"; "feats_B.h5"] /\
  map featurize_region_name (glob_stores "out" ["stats.h5"; "feats_A.h5"; "feats_B.h5"])
    = ["A"; "B"] /\
  List.NoDup (map featurize_region_name
                (glob_stores "out" ["stats.h5"; "feats_A.h5"; "feats_B.h5"])).
Proof.
  assert (H1 : List.NoDup ["stats.h5"; "feats_A.h5"; "feats_B.h5"]).
  { repeat constructor; simpl; intuition discriminate. }
  assert (H2 : Forall (fun fn => has_sep fn = false)
                 ["stats.h5"; "feats_A.h5"; "feats_B.h5"])
    by (repeat constructor).
  split; [reflexivity |].
  split; [exact H1 |]. split; [exact H2 |]. split; [reflexivity |].
  exact (region_names_distinct "out" _ eq_refl H1 H2).
Defined.

(** X3: a region name is never a path: whatever file the glob returns, the
    name derived from it contains no ['/']. *)
Theorem region_name_no_sep (f : string) :
  has_sep (featurize_region_name f) = false.
Proof.
  unfold featurize_region_name, slice.
  apply has_sep_substring, has_sep_basename.
Qed.


(** ** Output files and hand-overs between the commands *)

Import States.

Lemma endswith_path_join (dir name suffix : string) :
  startswith name "/" = false ->
  endswith name suffix = true ->
  endswith (path_join dir name) suffix = true.
Proof.
  intros Hs He. apply endswith_inv in He as [pre ->].
  unfold path_join. rewrite Hs.
  destruct (String.eqb dir "" || endswith dir "/").
  - rewrite <- append_assoc. apply endswith_append.
  - rewrite <- !append_assoc. apply endswith_append.
Qed.

Lemma length_neq (x y : string) :
  String.length x <> String.length y -> x <> y.
Proof. intros H ->. now apply H. Qed.

Lemma slice_strip_npz (pre : string) : slice (pre +:+ ".npz") 0 (-4) = pre.
Proof. apply (slice_strip_suffix pre ".npz"). simpl. lia. Qed.

(** X4: without an explicit output file the state-features command hands
    [np.savez] a name next to its input: [stem_states.npz] for an input
    [stem.npz], and [infile_states.npz] for any other input.  numpy adds no
    further suffix to that name, and it is never the input file itself. *)
Theorem states_default_outfile (a : StatesArgs) :
  sta_outfile a = None ->
  states_outfile a <> sta_infile a /\
  (forall members : npz, (savez (states_outfile a) members).1 = states_outfile a) /\
  exists stem,
    states_outfile a = stem +:+ "_states.npz" /\
    (sta_infile a = stem +:+ ".npz" \/
     (endswith (sta_infile a) ".npz" = false /\ sta_infile a = stem)).
Proof.
  intros Hnone.
  assert (Hname : exists stem,
            states_outfile a = stem +:+ "_states.npz" /\
            (sta_infile a = stem +:+ ".npz" \/
             (endswith (sta_infile a) ".npz" = false /\ sta_infile a = stem))).
  { unfold states_outfile. rewrite Hnone.
    destruct (endswith (sta_infile a) ".npz") eqn:He.
    - destruct (endswith_inv _ _ He) as [stem Hstem]. exists stem.
      rewrite Hstem at 1. rewrite slice_strip_npz.
      split; [reflexivity | now left].
    - exists (sta_infile a). split; [reflexivity | now right]. }
  destruct Hname as (stem & Hout & Hin).
  assert (Hends : endswith (states_outfile a) ".npz" = true).
  { rewrite Hout.
    change (stem +:+ "_states.npz") with (stem +:+ "_states" +:+ ".npz").
    rewrite <- append_assoc. apply endswith_append. }
  split; [| split].
  - apply length_neq. rewrite Hout, length_append.
    destruct Hin as [-> | [_ ->]]; rewrite ?length_append; simpl; lia.
  - intros members. unfold savez. now rewrite Hends.
  - exists stem. now split.
Qed.

Lemma states_default_outfile_witness :
  sta_outfile MoreExamples.states_args = None /\
  states_outfile MoreExamples.states_args = "out/embeddings_states.npz" /\
  states_outfile MoreExamples.states_args <> sta_infile MoreExamples.states_args /\
  (savez (states_outfile MoreExamples.states_args) Examples.small_archive).1
    = "out/embeddings_states.npz".
Proof.
  destruct (states_default_outfile MoreExamples.states_args eq_refl)
    as (Hne & Hfile & _).
  split; [reflexivity |]. split; [reflexivity |]. split; [exact Hne |].
  exact (Hfile Examples.small_archive).
Defined.

(** X5: the archive the featurize command writes by default is the archive
    the export command reads by default: with no [outfile] and no [infile]
    and the same directory, both use [DIR/embeddings.npz], to which numpy adds
    no suffix.  With an explicit [outfile] the file written is [outfile] only
    if it ends in [.npz], and [outfile.npz] otherwise. *)
Theorem featurize_output_is_export_input {Stats : Type}
    (load_stats : string -> res Stats) (entries : list string)
    (get_embeddings : EmbedCall Stats -> res (list ndarray))
    (fa : FeaturizeArgs) (ea : ExportArgs) (file : string) (archive : npz) :
  do_featurize load_stats entries get_embeddings fa = Ok (file, archive) ->
  (file = if endswith (featurize_outfile fa) ".npz"
          then featurize_outfile fa else featurize_outfile fa +:+ ".npz") /\
  (fa_outfile fa = None -> ea_infile ea = None -> ea_dir ea = fa_dir fa ->
   file = export_infile ea).
Proof.
  intros Hrun.
  apply do_featurize_inv in Hrun as (_ & _ & _ & _ & -> & _).
  unfold savez. cbn [fst]. split; [reflexivity |].
  intros Hout Hin Hdir. unfold featurize_outfile, export_infile.
  rewrite Hout, Hin, Hdir.
  now rewrite (endswith_path_join (fa_dir fa) "embeddings.npz" ".npz").
Qed.

Lemma featurize_output_is_export_input_witness :
  do_featurize Examples.example_load_stats Examples.sorted_entries
    MoreExamples.two_stores_get_embeddings Examples.linear_only_args
  = Ok ("out/embeddings.npz",
        (<["emb_lin" := Arr2 1 [[1%R]; [0%R]]]>
          (<["region_weights" := Arr1 [3%R; 4%R]]>
            (<["feature_names" := StrArr ["one"]]>
              (featurize_res Examples.sorted_entries Examples.linear_only_args))))) /\
  "out/embeddings.npz" = export_infile MoreExamples.default_export_args.
Proof.
  assert (H : do_featurize Examples.example_load_stats Examples.sorted_entries
                MoreExamples.two_stores_get_embeddings Examples.linear_only_args
              = Ok ("out/embeddings.npz",
                    (<["emb_lin" := Arr2 1 [[1%R]; [0%R]]]>
                      (<["region_weights" := Arr1 [3%R; 4%R]]>
                        (<["feature_names" := StrArr ["one"]]>
                          (featurize_res Examples.sorted_entries
                             Examples.linear_only_args))))))
    by reflexivity.
  destruct (featurize_output_is_export_input _ _ _ _
              MoreExamples.default_export_args _ _ H) as [_ Hsame].
  split; [exact H | exact (Hsame eq_refl eq_refl eq_refl)].
Defined.

(** X6: the outcome of the sort command.  The output directory is created
    only when it is not there, and when creating it raises nothing is
    sorted.  Then [sort_by_region] is called, on the pattern
    [out_dir/feats_{}.h5] and with the income adjustment on; what it raises
    ends the command and no statistics are saved.  Its statistics are saved
    to [out_dir/stats.h5], the file the featurize command loads for that
    directory; what [save_stats] raises ends the command. *)
Theorem do_sort_outcome {Stats Stores : Type}
    (isdir : string -> bool) (makedirs : string -> res unit)
    (sort_by_region : SortCall -> res (Stats * Stores))
    (save_stats : string -> Stats -> res unit) (a : SortArgs) :
  let run := do_sort isdir makedirs sort_by_region save_stats a in
  let stats_file := path_join (sa_out_dir a) "stats.h5" in
  (isdir (sa_out_dir a) = false ->
   forall e, makedirs (sa_out_dir a) = Raise e -> run = Raise e) /\
  (isdir (sa_out_dir a) = true \/ makedirs (sa_out_dir a) = Ok tt ->
   sc_out_fmt (sort_call a) = path_join (sa_out_dir a) "feats_{}.h5" /\
   sc_adj_inc (sort_call a) = true /\
   match sort_by_region (sort_call a) with
   | Raise e => run = Raise e
   | Ok (stats, stores) =>
       match save_stats stats_file stats with
       | Raise e => run = Raise e
       | Ok _ => run = Ok (stores, (stats_file, stats))
       end
   end) /\
  (forall (fa : FeaturizeArgs) (load_stats : string -> res Stats)
          (entries : list string)
          (get_embeddings : EmbedCall Stats -> res (list ndarray)) e,
     fa_dir fa = sa_out_dir a ->
     load_stats stats_file = Raise e ->
     do_featurize load_stats entries get_embeddings fa = Raise e).
Proof.
  intros run stats_file. unfold run, do_sort. fold stats_file.
  split; [| split].
  - intros Hdir e He. now rewrite Hdir, He.
  - intros Hdir.
    assert (Hmk : (if isdir (sa_out_dir a) then Ok tt else makedirs (sa_out_dir a))
                  = Ok tt).
    { destruct Hdir as [-> | Hmk]; [reflexivity |].
      now destruct (isdir (sa_out_dir a)). }
    rewrite Hmk. unfold mbind, res_bind.
    split; [reflexivity |]. split; [reflexivity |].
    destruct (sort_by_region (sort_call a)) as [[stats stores]|e]; [| reflexivity].
    cbn [fst snd]. now destruct (save_stats stats_file stats).
  - intros fa load_stats entries ge e Hdir Hload. unfold do_featurize.
    unfold stats_file in Hload. now rewrite Hdir, Hload.
Qed.

Lemma do_sort_outcome_witness :
  MoreExamples.only_out (sa_out_dir MoreExamples.fresh_sort_args) = false /\
  MoreExamples.no_makedirs (sa_out_dir MoreExamples.fresh_sort_args) = Raise IOError /\
  do_sort MoreExamples.only_out MoreExamples.no_makedirs
    MoreExamples.example_sort_by_region MoreExamples.example_save_stats
    MoreExamples.fresh_sort_args = Raise IOError /\
  do_sort MoreExamples.only_out MoreExamples.no_makedirs
    MoreExamples.example_sort_by_region MoreExamples.example_save_stats
    Examples.sort_args = Ok (tt, ("out/stats.h5", tt)).
Proof.
  destruct (do_sort_outcome MoreExamples.only_out MoreExamples.no_makedirs
              MoreExamples.example_sort_by_region MoreExamples.example_save_stats
              MoreExamples.fresh_sort_args) as (Hfail & _).
  destruct (do_sort_outcome MoreExamples.only_out MoreExamples.no_makedirs
              MoreExamples.example_sort_by_region MoreExamples.example_save_stats
              Examples.sort_args) as (_ & Hok & _).
  destruct (Hok (or_introl eq_refl)) as (_ & _ & Hrun).
  split; [reflexivity |]. split; [reflexivity |].
  split; [exact (Hfail eq_refl IOError eq_refl) | exact Hrun].
Defined.

(** X7: the outcome of the featurize command.  It raises what [load_stats]
    raises, without calling [get_embeddings]; else it raises what
    [get_embeddings] raises; else it raises [ValueError] unless the tuple
    returned has the arity the branch unpacks (3 under [skip_rbf], 6
    otherwise); only then is an archive written. *)
Theorem do_featurize_outcome {Stats : Type}
    (load_stats : string -> res Stats) (entries : list string)
    (get_embeddings : EmbedCall Stats -> res (list ndarray)) (fa : FeaturizeArgs) :
  match load_stats (path_join (fa_dir fa) "stats.h5") with
  | Raise e => do_featurize load_stats entries get_embeddings fa = Raise e
  | Ok stats =>
      match get_embeddings (embed_call entries fa stats) with
      | Raise e => do_featurize load_stats entries get_embeddings fa = Raise e
      | Ok t =>
          if (length t =? if fa_skip_rbf fa then 3 else 6)%nat
          then exists file archive,
                 do_featurize load_stats entries get_embeddings fa = Ok (file, archive)
          else do_featurize load_stats entries get_embeddings fa = Raise ValueError
      end
  end.
Proof.
  unfold do_featurize.
  destruct (load_stats _) as [stats|e]; unfold mbind, res_bind; [| reflexivity].
  destruct (fa_skip_rbf fa).
  - destruct (get_embeddings _) as [t|e]; [| reflexivity].
    destruct t as [|x1 [|x2 [|x3 [|x4 t]]]]; cbn [length Nat.eqb]; eauto.
  - destruct (get_embeddings _) as [t|e]; [| reflexivity].
    destruct t as [|x1 [|x2 [|x3 [|x4 [|x5 [|x6 [|x7 t]]]]]]];
      cbn [length Nat.eqb]; eauto.
Qed.


(** ** The export command: failures, partial output, file names *)

Section ExportMore.
Variable relpath : string -> string -> string.

Lemma do_export_linear_raise (a : ExportArgs) (data : npz) (e : pyerr) :
  has_brace (ea_dir a) = false ->
  has_brace (export_out_name relpath a) = false ->
  linear_frame data = Raise e ->
  do_export relpath a data = ([], Some e).
Proof.
  intros Hd Hb Hl. unfold do_export, export_out_pattern.
  rewrite format_out_pattern by assumption. now rewrite Hl.
Qed.

End ExportMore.





Lemma first_cells {A} (f : A -> cell) (names : list A) (rows : list (list R)) :
  length rows = length names ->
  map (hd (CStr "")) (zip_with (fun name row => f name :: map CNum row) names rows)
  = map f names.
Proof.
  revert rows. induction names as [|n names IH]; intros [|row rows] H;
    try discriminate; [reflexivity |].
  simpl. f_equal. apply IH. now injection H.
Qed.

Lemma path_join_inj (dir x y : string) :
  startswith x "/" = startswith y "/" ->
  x <> y -> path_join dir x <> path_join dir y.
Proof.
  intros Hs Hne. unfold path_join. rewrite <- Hs.
  destruct (startswith x "/"); [exact Hne |].
  destruct (String.eqb dir "" || endswith dir "/").
  - intros H. now apply String.app_inj in H.
  - intros H. apply String.app_inj in H. now apply String.app_inj in H.
Qed.

(** X10: when both embeddings are exported, the two CSV files are different
    files, they have the same number of lines, and line by line they start
    with the same region name: the rows of the two tables correspond. *)
Theorem export_tables_aligned (relpath : string -> string -> string)
    (a : ExportArgs) (data : npz) (names fns : list string)
    (rows : list (list R)) (k : nat) (rows' : list (list R)) :
  has_brace (ea_dir a) = false ->
  has_brace (export_out_name relpath a) = false ->
  data !! "region_names" = Some (StrArr names) ->
  data !! "feature_names" = Some (StrArr fns) ->
  data !! "emb_lin" = Some (Arr2 (length fns) rows) ->
  length rows = length names ->
  data !! "emb_rff" = Some (Arr2 k rows') ->
  length rows' = length names ->
  exists p1 c1 p2 c2,
    do_export relpath a data = ([(p1, c1); (p2, c2)], None) /\
    p1 <> p2 /\
    length (csv_lines c1) = length (csv_lines c2) /\
    map (hd (CStr "")) (csv_lines c1) = map CStr names /\
    map (hd (CStr "")) (csv_lines c2) = map CStr names.
Proof.
  intros Hd Hb Hn Hf Hl Hlen Hr Hlen'.
  rewrite (do_export_written relpath a data names fns rows Hd Hb Hn Hf Hl Hlen).
  rewrite Hr, (rff_frame_ok data names k rows' Hn Hr), Hlen', Nat.eqb_refl.
  do 4 eexists. split; [reflexivity |].
  unfold to_csv. cbn [csv_lines df_index df_values].
  rewrite zip_with_cons_cells.
  split.
  - apply path_join_inj.
    + now destruct (export_out_name relpath a).
    + intros H. apply String.app_inj in H. discriminate.
  - split; [rewrite !length_zip_with; lia |].
    split; now apply first_cells.
Qed.

Lemma export_tables_aligned_witness :
  MoreExamples.full_archive !! "emb_rff" = Some (Arr2 1 [[1%R]; [0%R]]) /\
  map fst (do_export Examples.no_relpath Examples.export_args
             MoreExamples.full_archive).1
    = ["out/embeddings_linear.csv"; "out/embeddings_rff.csv"].
Proof.
  destruct (export_tables_aligned Examples.no_relpath Examples.export_args
              MoreExamples.full_archive ["A"; "B"] ["SEX_1"; "PINCP"]
              [[1%R; 0%R]; [0%R; 1%R]] 1 [[1%R]; [0%R]]
              eq_refl eq_refl eq_refl eq_refl eq_refl eq_refl eq_refl eq_refl)
    as (p1 & c1 & p2 & c2 & H & _).
  split; [reflexivity |]. reflexivity.
Defined.

(** X11: the base name the export command derives when [--out-name] is not
    given never contains a ['/'], so both CSV files are put in [DIR] itself;
    it is [embeddings] when the input lies outside [DIR] (its relative path
    has a ['/']) and the input's name without a final [.npz] otherwise. *)
Theorem export_derived_out_name (relpath : string -> string -> string)
    (a : ExportArgs) :
  ea_out_name a = None ->
  let rel := relpath (export_infile a) (ea_dir a) in
  let base := export_out_name relpath a in
  has_sep base = false /\
  basename (path_join (ea_dir a) (base +:+ "_linear.csv")) = base +:+ "_linear.csv" /\
  basename (path_join (ea_dir a) (base +:+ "_rff.csv")) = base +:+ "_rff.csv" /\
  (has_sep rel = true -> base = "embeddings") /\
  (forall stem, has_sep rel = false -> rel = stem +:+ ".npz" -> base = stem) /\
  (has_sep rel = false -> endswith rel ".npz" = false -> base = rel).
Proof.
  intros Hnone rel base.
  assert (Hbase : base = if has_sep rel then "embeddings"
                         else if endswith rel ".npz" then slice rel 0 (-4) else rel).
  { unfold base, export_out_name. now rewrite Hnone. }
  assert (Hsep : has_sep base = false).
  { rewrite Hbase. destruct (has_sep rel) eqn:Hr; [reflexivity |].
    destruct (endswith rel ".npz"); [| exact Hr].
    unfold slice. now apply has_sep_substring. }
  split; [exact Hsep |].
  split; [apply basename_path_join; rewrite has_sep_append, Hsep; reflexivity |].
  split; [apply basename_path_join; rewrite has_sep_append, Hsep; reflexivity |].
  split; [intros Hr; now rewrite Hbase, Hr |].
  split.
  - intros stem Hr ->. rewrite Hbase, Hr.
    change (stem +:+ ".npz") with (stem +:+ "" +:+ ".npz") at 1.
    rewrite endswith_append. apply slice_strip_npz.
  - intros Hr He. now rewrite Hbase, Hr, He.
Qed.

Lemma export_derived_out_name_witness :
  ea_out_name MoreExamples.default_export_args = None /\
  export_out_name MoreExamples.example_relpath MoreExamples.default_export_args
    = "embeddings" /\
  has_sep (export_out_name MoreExamples.example_relpath
             MoreExamples.default_export_args) = false.
Proof.
  destruct (export_derived_out_name MoreExamples.example_relpath
              MoreExamples.default_export_args eq_refl) as (Hsep & _).
  split; [reflexivity |]. split; [reflexivity | exact Hsep].
Defined.


(** ** The weight-counts command *)

Import WeightCounts.

Section WeightCountsFacts.
Variable read_total_wt : string -> res R.
Variable dir : string.

Local Abbreviation keyed := (store_totals read_total_wt dir).

Lemma store_totals_cons (fn : string) (entries : list string) :
  keyed (fn :: entries) =
    match weight_counts_region fn with
    | Some r => (r, total_or_zero read_total_wt dir fn) :: keyed entries
    | None => keyed entries
    end.
Proof. unfold store_totals. cbn [omap list_omap]. now destruct (weight_counts_region fn). Qed.

Lemma store_totals_in (entries : list string) (r : string) (w : R) :
  In (r, w) (keyed entries) <->
  In (store_file_name r) entries /\
  w = total_or_zero read_total_wt dir (store_file_name r).
Proof.
  induction entries as [|fn entries IH]; [simpl; tauto |].
  rewrite store_totals_cons. cbn [In].
  destruct (weight_counts_region fn) as [r0|] eqn:Hfn.
  - apply weight_counts_region_inv in Hfn as Hname. subst fn.
    cbn [In]. rewrite IH. split.
    + intros [[= <- <-] | [Hin Hw]]; [now split; [left |] | now split; [right |]].
    + intros [[Heq | Hin] Hw].
      * left. assert (r0 = r) as ->.
        { rewrite <- (slice_store_file_name r0), Heq. apply slice_store_file_name. }
        now rewrite Hw.
      * right. now split.
  - rewrite IH. split.
    + intros [Hin Hw]. now split; [right |].
    + intros [[Heq | Hin] Hw]; [| now split].
      subst fn. rewrite weight_counts_region_store_file_name in Hfn. discriminate.
Qed.

Lemma store_totals_keys (entries : list string) :
  List.NoDup entries -> NoDup ((keyed entries).*1).
Proof.
  induction entries as [|fn entries IH]; intros Hnd; [constructor |].
  apply List.NoDup_cons_iff in Hnd as [Hnot Hnd].
  rewrite store_totals_cons.
  destruct (weight_counts_region fn) as [r|] eqn:Hfn; [| now apply IH].
  cbn [fmap list_fmap fst]. apply NoDup_cons. split; [| now apply IH].
  intros Hin. apply list_elem_of_fmap in Hin as ([r' w] & Hr & Hin).
  simpl in Hr. subst r'. apply list_elem_of_In in Hin.
  apply store_totals_in in Hin as [Hin _].
  apply weight_counts_region_inv in Hfn. subst fn. contradiction.
Qed.

(** When every store can be read, the loop builds the mapping of the
    stores' totals. *)
Lemma read_mapping_ok (entries : list string) (m : gmap string R) :
  (forall fn, In fn entries -> is_Some (weight_counts_region fn) ->
              exists w, read_total_wt (path_join dir fn) = Ok w) ->
  List.NoDup entries ->
  read_mapping read_total_wt dir entries m = Ok (list_to_map (keyed entries) ∪ m).
Proof.
  revert m. induction entries as [|fn entries IH]; intros m Hread Hnd.
  - cbn. now rewrite (left_id_L ∅ (∪)).
  - pose proof (store_totals_keys _ Hnd) as Hkeys.
    apply List.NoDup_cons_iff in Hnd as [Hnot Hnd].
    cbn [read_mapping]. rewrite store_totals_cons in *.
    destruct (weight_counts_region fn) as [r|] eqn:Hfn.
    + destruct (Hread fn (or_introl eq_refl)) as [w Hw]; [now rewrite Hfn |].
      rewrite Hw. unfold mbind, res_bind.
      rewrite IH; [| intros; apply Hread; [now right | assumption] | exact Hnd].
      unfold total_or_zero. rewrite Hw. cbn [list_to_map foldr]. simpl.
      f_equal. rewrite <- insert_union_l. symmetry. apply insert_union_r.
      cbn [fmap list_fmap fst] in Hkeys. apply NoDup_cons in Hkeys as [Hr _].
      now apply not_elem_of_list_to_map_1.
    + apply IH; [intros; apply Hread; [now right | assumption] | exact Hnd].
Qed.

(** The loop never opens an entry that does not pass the guard. *)
Lemma read_mapping_ext (read2 : string -> res R) (entries : list string)
    (m : gmap string R) :
  (forall fn, In fn entries -> is_Some (weight_counts_region fn) ->
              read_total_wt (path_join dir fn) = read2 (path_join dir fn)) ->
  read_mapping read_total_wt dir entries m = read_mapping read2 dir entries m.
Proof.
  revert m. induction entries as [|fn entries IH]; intros m H; [reflexivity |].
  cbn [read_mapping]. destruct (weight_counts_region fn) as [r|] eqn:Hfn.
  - rewrite <- (H fn (or_introl eq_refl)) by (now rewrite Hfn).
    destruct (read_total_wt (path_join dir fn)); unfold mbind, res_bind;
      [| reflexivity].
    apply IH. intros. apply H; [now right | assumption].
  - apply IH. intros. apply H; [now right | assumption].
Qed.

Lemma read_mapping_raise (entries : list string) (m : gmap string R)
    (fn : string) (e : pyerr) :
  In fn entries -> is_Some (weight_counts_region fn) ->
  read_total_wt (path_join dir fn) = Raise e ->
  exists e', read_mapping read_total_wt dir entries m = Raise e'.
Proof.
  revert m. induction entries as [|fn0 entries IH]; intros m Hin Hfn He;
    [contradiction |].
  cbn [read_mapping]. destruct Hin as [-> | Hin].
  - destruct Hfn as [r Hr]. rewrite Hr, He. now exists e.
  - destruct (weight_counts_region fn0); [| now apply IH].
    destruct (read_total_wt (path_join dir fn0)); unfold mbind, res_bind;
      [now apply IH | eauto].
Qed.

End WeightCountsFacts.

Lemma weight_counts_frame_lines (mapping : gmap string R) :
  zip_with cons (map (fun p : string * R => CStr p.1) (map_to_list mapping))
    (map (fun p : string * R => [CNum p.2]) (map_to_list mapping))
  = map (fun p => [CStr p.1; CNum p.2]) (map_to_list mapping).
Proof. induction (map_to_list mapping) as [|p l IH]; simpl; [reflexivity | now rewrite IH]. Qed.



(** X13: in a directory without any store the weight-counts command raises
    [ValueError] and writes nothing: the frame built from the empty mapping
    has no column to name [total_wt]. *)
Theorem weight_counts_no_store (read_total_wt : string -> res R)
    (a : WeightCountsArgs) (entries : list string) :
  Forall (fun fn => weight_counts_region fn = None) entries ->
  do_weight_counts read_total_wt a entries = Raise ValueError.
Proof.
  intros Hnone. unfold do_weight_counts.
  assert (Hmap : forall m, read_mapping read_total_wt (wa_dir a) entries m = Ok m).
  { induction Hnone as [|fn entries Hfn _ IH]; intros m; [reflexivity |].
    cbn [read_mapping]. now rewrite Hfn. }
  rewrite Hmap. unfold mbind, res_bind, set_column_names, from_dict_index.
  now rewrite map_to_list_empty.
Qed.

Lemma weight_counts_no_store_witness :
  Forall (fun fn => weight_counts_region fn = None) ["stats.h5"; "embeddings.npz"] /\
  do_weight_counts MoreExamples.read_example MoreExamples.weight_counts_args
    ["stats.h5"; "embeddings.npz"] = Raise ValueError.
Proof.
  assert (H : Forall (fun fn => weight_counts_region fn = None)
                ["stats.h5"; "embeddings.npz"]) by (repeat constructor).
  split; [exact H |].
  exact (weight_counts_no_store MoreExamples.read_example
           MoreExamples.weight_counts_args _ H).
Defined.

(** X14: the weight-counts command opens only the entries that pass its
    guard: two file systems that agree on the store files of the directory
    give the same outcome, whatever their other files hold. *)
Theorem weight_counts_reads_only_stores (read1 read2 : string -> res R)
    (a : WeightCountsArgs) (entries : list string) :
  (forall fn, In fn entries -> is_Some (weight_counts_region fn) ->
              read1 (path_join (wa_dir a) fn) = read2 (path_join (wa_dir a) fn)) ->
  do_weight_counts read1 a entries = do_weight_counts read2 a entries.
Proof.
  intros H. unfold do_weight_counts.
  now rewrite (read_mapping_ext read1 (wa_dir a) read2 entries ∅ H).
Qed.

Lemma weight_counts_reads_only_stores_witness :
  do_weight_counts MoreExamples.read_example MoreExamples.weight_counts_args
    MoreExamples.listing
  = do_weight_counts
      (fun path => if String.eqb path "out/stats.h5" then Ok 0%R
                   else MoreExamples.read_example path)
      MoreExamples.weight_counts_args MoreExamples.listing.
Proof.
  apply weight_counts_reads_only_stores.
  intros fn [<- | [<- | [<- | []]]] Hs.
  - destruct Hs as [r Hr]. discriminate Hr.
  - reflexivity.
  - reflexivity.
Defined.

(** X15: a store that cannot be read aborts the weight-counts command: it
    raises and writes no CSV, also when other stores are fine. *)
Theorem weight_counts_unreadable_store (read_total_wt : string -> res R)
    (a : WeightCountsArgs) (entries : list string) (fn : string) (e : pyerr) :
  In fn entries ->
  is_Some (weight_counts_region fn) ->
  read_total_wt (path_join (wa_dir a) fn) = Raise e ->
  exists e', do_weight_counts read_total_wt a entries = Raise e'.
Proof.
  intros Hin Hfn He. unfold do_weight_counts.
  destruct (read_mapping_raise read_total_wt (wa_dir a) entries ∅ fn e Hin Hfn He)
    as [e' ->].
  now exists e'.
Qed.

Lemma weight_counts_unreadable_store_witness :
  In "feats_C.h5" ["feats_A.h5"; "feats_C.h5"] /\
  is_Some (weight_counts_region "feats_C.h5") /\
  MoreExamples.read_example (path_join "out" "feats_C.h5") = Raise IOError /\
  exists e', do_weight_counts MoreExamples.read_example
               MoreExamples.weight_counts_args ["feats_A.h5"; "feats_C.h5"]
             = Raise e'.
Proof.
  assert (H1 : In "feats_C.h5" ["feats_A.h5"; "feats_C.h5"]) by (right; now left).
  assert (H2 : is_Some (weight_counts_region "feats_C.h5")) by (now exists "C").
  split; [exact H1 |]. split; [exact H2 |]. split; [reflexivity |].
  exact (weight_counts_unreadable_store MoreExamples.read_example
           MoreExamples.weight_counts_args _ "feats_C.h5" IOError H1 H2 eq_refl).
Defined.


(** ** Options of the sort command, and featurize followed by export *)

Lemma existsb_format_flag (f : format_flag) (given : list format_flag) :
  existsb (format_flag_eqb f) given = true <-> In f given.
Proof.
  rewrite List.existsb_exists. split.
  - intros (x & Hin & Hx). now destruct f, x.
  - intros Hin. exists f. split; [exact Hin | now destruct f].
Qed.

(** X16: what the two flags of the sort command's format group do.  Giving
    both is an error; otherwise voters_only is off exactly when
    [--all-people] is given, so [--voters-only] never changes the outcome of
    a command line that parses. *)
Theorem parse_voters_only_spec (given : list format_flag) :
  (parse_voters_only given = Raise ArgumentError <->
   In VotersOnlyFlag given /\ In AllPeopleFlag given) /\
  (parse_voters_only given = Ok false <->
   In AllPeopleFlag given /\ ~ In VotersOnlyFlag given) /\
  (parse_voters_only given = Ok true <-> ~ In AllPeopleFlag given).
Proof.
  unfold parse_voters_only.
  pose proof (existsb_format_flag VotersOnlyFlag given) as Hv.
  pose proof (existsb_format_flag AllPeopleFlag given) as Hp.
  destruct (existsb (format_flag_eqb VotersOnlyFlag) given),
           (existsb (format_flag_eqb AllPeopleFlag) given);
    cbn [andb negb];
    destruct Hv as [Hv1 Hv2], Hp as [Hp1 Hp2];
    repeat split; intros; try discriminate; try reflexivity; auto;
    try (exfalso; intuition discriminate);
    try (intros Hin; apply Hp2 in Hin; discriminate);
    try (intros Hin; apply Hv2 in Hin; discriminate).
Qed.



